(** * Settings routes: the category and branch registries

    A shallow embedding of [src/routes/settings.js].  The module keeps two
    in-process arrays, [categories] and [branches], and serves seven routes
    over each of them.  The route callbacks are embedded as computations in a
    small state monad over the two arrays and the wall clock; a computation
    stops as soon as [res.json] has been called.

    Conventions of the embedding:
    - text is [string]; request bodies carry text fields only, so a body is a
      finite map from field names to text and a missing key is [undefined];
    - [String.prototype.toLowerCase] and the e-mail grammar of [.isEmail()]
      belong to the runtime and to the validation library: the routes that
      use them take them as parameters;
    - [Date.now()] and [new Date()] read the wall clock, an oracle giving the
      n-th reading in milliseconds; [toISOString] is order preserving on the
      readings, so a stored timestamp is the reading itself;
    - the [authenticate] and [requireAdmin] middlewares live outside this
      file; the callbacks are modelled from the point where they run. *)

From Stdlib Require Import NArith Ascii String.
From stdpp Require Import base option list strings pretty gmap.

Local Open Scope string_scope.

(** ** JavaScript values and helpers *)

(** A body field or an optional record field: [None] is [undefined]. *)
Definition jsval := option string.

(** Truthiness of a text-or-undefined value: [undefined] and [''] are falsy. *)
Definition truthy (v : jsval) : bool :=
  match v with
  | None => false
  | Some s => negb (bool_decide (s = ""))
  end.

(** [v || undefined] *)
Definition or_undefined (v : jsval) : jsval :=
  if truthy v then v else None.

(** [String.prototype.toLowerCase] belongs to the JavaScript runtime: it
    lower-cases every cased letter, and the branch routes below take it as
    a parameter. On text of ASCII characters it is [ascii_lower]: the
    letters A-Z move to a-z, every other character stays. *)
Definition ascii_toLowerCase (c : ascii) : ascii :=
  let n := N_of_ascii c in
  if ((65 <=? n) && (n <=? 90))%N then ascii_of_N (n + 32) else c.

Fixpoint ascii_lower (s : string) : string :=
  match s with
  | EmptyString => EmptyString
  | String c s' => String (ascii_toLowerCase c) (ascii_lower s')
  end.

(** [Number.prototype.toString] on a clock reading: its decimal digits. *)
Definition Number_toString (n : N) : string := pretty n.

(** [Array.prototype.findIndex]; [None] stands for the result [-1]. *)
Fixpoint findIndex {A} (p : A → bool) (l : list A) : option nat :=
  match l with
  | [] => None
  | x :: l' => if p x then Some 0 else S <$> findIndex p l'
  end.

(** [Array.prototype.find], [some] and [push]; [filter] is [List.filter]. *)
Definition find {A} (p : A → bool) (l : list A) : option A := List.find p l.
Definition some {A} (p : A → bool) (l : list A) : bool := existsb p l.
Definition push {A} (l : list A) (x : A) : list A := l ++ [x].

(** [arr.splice(i, 1)] *)
Definition splice1 {A} (i : nat) (l : list A) : list A := delete i l.

(** ** Records *)

Module Category.
Record t := mk {
  _id : string;
  name : string;
  value : string;
  label : string;
  description : jsval;
  isActive : bool;
  createdAt : N;
  updatedAt : N;
}.

Definition set_isActive (b : bool) (c : t) : t :=
  mk (_id c) (name c) (value c) (label c) (description c) b
     (createdAt c) (updatedAt c).
Definition set_updatedAt (ts : N) (c : t) : t :=
  mk (_id c) (name c) (value c) (label c) (description c) (isActive c)
     (createdAt c) ts.
Definition set_name_label (n : string) (c : t) : t :=
  mk (_id c) n (value c) n (description c) (isActive c)
     (createdAt c) (updatedAt c).
Definition set_value (v : string) (c : t) : t :=
  mk (_id c) (name c) v (label c) (description c) (isActive c)
     (createdAt c) (updatedAt c).
Definition set_description (d : jsval) (c : t) : t :=
  mk (_id c) (name c) (value c) (label c) d (isActive c)
     (createdAt c) (updatedAt c).
End Category.

Module Branch.
Record t := mk {
  _id : string;
  name : string;
  description : jsval;
  address : jsval;
  phone : jsval;
  email : jsval;
  isActive : bool;
  createdAt : N;
  updatedAt : N;
}.

Definition set_isActive (b : bool) (c : t) : t :=
  mk (_id c) (name c) (description c) (address c) (phone c) (email c) b
     (createdAt c) (updatedAt c).
Definition set_updatedAt (ts : N) (c : t) : t :=
  mk (_id c) (name c) (description c) (address c) (phone c) (email c)
     (isActive c) (createdAt c) ts.
Definition set_name (n : string) (c : t) : t :=
  mk (_id c) n (description c) (address c) (phone c) (email c)
     (isActive c) (createdAt c) (updatedAt c).
Definition set_description (d : jsval) (c : t) : t :=
  mk (_id c) (name c) d (address c) (phone c) (email c)
     (isActive c) (createdAt c) (updatedAt c).
Definition set_address (d : jsval) (c : t) : t :=
  mk (_id c) (name c) (description c) d (phone c) (email c)
     (isActive c) (createdAt c) (updatedAt c).
Definition set_phone (d : jsval) (c : t) : t :=
  mk (_id c) (name c) (description c) (address c) d (email c)
     (isActive c) (createdAt c) (updatedAt c).
Definition set_email (d : jsval) (c : t) : t :=
  mk (_id c) (name c) (description c) (address c) (phone c) d
     (isActive c) (createdAt c) (updatedAt c).
End Branch.

(** ** Request validation (express-validator chains)

    A chain [body(field)] runs every validator it lists on the field's text
    ([undefined] reads as ['']) and records one error per failing validator;
    [.optional()] skips the chain when the field is [undefined], and
    [.optional({ checkFalsy: true })] also when it is falsy. *)

Inductive validator :=
  | notEmpty
  | isLength_max (max : nat)
  | matches_slug                        (* .matches(/^[a-z0-9-]+$/) *)
  | isEmail_by (grammar : string → bool).  (* .isEmail(), see [isEmail] below *)

Inductive presence :=
  | required
  | optional (checkFalsy : bool).

Record chain := Chain {
  field : string;
  presence_of : presence;
  checks : list (validator * string);   (* validator, withMessage *)
}.

Record verror := VError {
  path : string;
  msg : string;
  rejected : jsval;
}.

Definition body := gmap string string.

Definition is_slug_char (c : ascii) : bool :=
  let n := N_of_ascii c in
  (((97 <=? n) && (n <=? 122)) || ((48 <=? n) && (n <=? 57)) || (n =? 45))%N.

Fixpoint all_chars (p : ascii → bool) (s : string) : bool :=
  match s with
  | EmptyString => true
  | String c s' => p c && all_chars p s'
  end.

Definition check (v : validator) (s : string) : bool :=
  match v with
  | notEmpty => negb (bool_decide (s = ""))
  | isLength_max max => (String.length s <=? max)%nat
  | matches_slug => negb (bool_decide (s = "")) && all_chars is_slug_char s
  | isEmail_by grammar => grammar s
  end.

Definition skipped (p : presence) (v : jsval) : bool :=
  match p with
  | required => false
  | optional false => bool_decide (v = None)
  | optional true => negb (truthy v)
  end.

Definition run_chain (c : chain) (b : body) : list verror :=
  let v := b !! field c in
  if skipped (presence_of c) v then []
  else
    omap (λ '(vd, m), if check vd (default "" v) then None
                      else Some (VError (field c) m v))
         (checks c).

(** [validationResult(req).array()] *)
Definition validationResult (cs : list chain) (b : body) : list verror :=
  mjoin ((λ c, run_chain c b) <$> cs).

(** ** Module state and the handler monad *)

(** The two arrays of the module, and the wall clock: [clock n] is the n-th
    reading taken since the module was loaded, [reads] counts the readings
    taken so far. *)
Record world := World {
  categories : list Category.t;
  branches : list Branch.t;
  clock : nat → N;
  reads : nat;
}.

(** The JSON bodies the routes send. *)
Inductive json (R : Type) :=
  | Message (message : string)
  | MessageErrors (message : string) (errors : list verror)
  | Listing (items : list R) (total : nat)
  | Single (item : R)
  | MessageWith (message : string) (item : R).
Arguments Message {R}.
Arguments MessageErrors {R}.
Arguments Listing {R}.
Arguments Single {R}.
Arguments MessageWith {R}.

(** [res.status(n).json(j)] *)
Definition response (R : Type) : Type := nat * json R.

(** A callback in progress: [inl r] once the response has been sent and the
    callback has returned, [inr a] while it is still running. *)
Definition handler (R A : Type) : Type := world → (response R + A) * world.

#[local] Instance handler_ret {R} : MRet (handler R) :=
  λ A a w, (inr a, w).
#[local] Instance handler_bind {R} : MBind (handler R) :=
  λ A B k m w,
    match m w with
    | (inl r, w') => (inl r, w')
    | (inr a, w') => k a w'
    end.

Definition send {R A} (status : nat) (j : json R) : handler R A :=
  λ w, (inl (status, j), w).

(** [new Date().toISOString()] and [Date.now()] take the next reading. *)
Definition new_Date {R} : handler R N :=
  λ w, (inr (clock w (reads w)),
        World (categories w) (branches w) (clock w) (S (reads w))).
Definition Date_now {R} : handler R N := new_Date.

Definition read_categories {R} : handler R (list Category.t) :=
  λ w, (inr (categories w), w).
Definition write_categories {R} (l : list Category.t) : handler R unit :=
  λ w, (inr (), World l (branches w) (clock w) (reads w)).
Definition read_branches {R} : handler R (list Branch.t) :=
  λ w, (inr (branches w), w).
Definition write_branches {R} (l : list Branch.t) : handler R unit :=
  λ w, (inr (), World (categories w) l (clock w) (reads w)).

(** Every path of a callback ends in a response. *)
Definition run_handler {R} (h : handler R Empty_set) (w : world)
  : response R * world :=
  match h w with
  | (inl r, w') => (r, w')
  | (inr e, _) => match e with end
  end.

(** A validated required field is text; [text] reads it. *)
Definition text (v : jsval) : string := default "" v.

(** ** Categories routes *)

(** [cat => cat._id === req.params.id] *)
Definition category_with_id (id : string) (cat : Category.t) : bool :=
  bool_decide (Category._id cat = id).

(** [categories[i]]: the index comes from [findIndex], so it is in range; a
    property access on a missing element would throw into the [catch] block
    of the callback, which answers 500. *)
Definition category_at (i : nat) (server_error : string)
  : handler Category.t Category.t :=
  cats ← read_categories;
  match cats !! i with
  | Some c => mret c
  | None => send 500 (Message server_error)
  end.

(** [categories[i].field = ...]: the element is changed in place. *)
Definition mutate_category (i : nat) (f : Category.t → Category.t)
  : handler Category.t unit :=
  cats ← read_categories;
  write_categories (alter f i cats).

(** GET /categories *)
Definition get_categories : handler Category.t Empty_set :=
  cats ← read_categories;
  send 200 (Listing (List.filter Category.isActive cats)
                    (length (List.filter Category.isActive cats))).

(** GET /categories/all *)
Definition get_categories_all : handler Category.t Empty_set :=
  cats ← read_categories;
  send 200 (Listing cats (length cats)).

(** GET /categories/:id *)
Definition get_category (id : string) : handler Category.t Empty_set :=
  cats ← read_categories;
  match find (category_with_id id) cats with
  | None => send 404 (Message "Category not found")
  | Some category => send 200 (Single category)
  end.

Definition post_categories_chains : list chain :=
  [ Chain "name" required
      [ (notEmpty, "Category name is required");
        (isLength_max 100, "Category name cannot exceed 100 characters") ];
    Chain "value" required
      [ (notEmpty, "Category value is required");
        (matches_slug,
         "Category value must contain only lowercase letters, numbers, and hyphens") ];
    Chain "description" (optional true)
      [ (isLength_max 500, "Description cannot exceed 500 characters") ] ].

(** POST /categories *)
Definition post_categories (req_body : body) : handler Category.t Empty_set :=
  let errors := validationResult post_categories_chains req_body in
  if negb (bool_decide (errors = [])) then
    send 400 (MessageErrors "Validation failed" errors)
  else
    let name := req_body !! "name" in
    let value := req_body !! "value" in
    let description := req_body !! "description" in
    cats ← read_categories;
    if some (λ cat, bool_decide (Some (Category.value cat) = value)) cats then
      send 400 (Message "Category value already exists")
    else
      now ← Date_now;
      created ← new_Date;
      updated ← new_Date;
      let newCategory :=
        Category.mk (Number_toString now) (text name) (text value) (text name)
                    (or_undefined description) true created updated in
      cats ← read_categories;
      write_categories (push cats newCategory);;
      send 201 (MessageWith "Category created successfully" newCategory).

Definition put_category_chains : list chain :=
  [ Chain "name" (optional false)
      [ (notEmpty, "Category name cannot be empty");
        (isLength_max 100, "Category name cannot exceed 100 characters") ];
    Chain "value" (optional false)
      [ (notEmpty, "Category value cannot be empty");
        (matches_slug,
         "Category value must contain only lowercase letters, numbers, and hyphens") ];
    Chain "description" (optional true)
      [ (isLength_max 500, "Description cannot exceed 500 characters") ] ].

(** The object spread of PUT /categories/:id, before [updatedAt]. *)
Definition merge_category (old : Category.t) (name value description : jsval)
  : Category.t :=
  let c1 := if truthy name then Category.set_name_label (text name) old
            else old in
  let c2 := if truthy value then Category.set_value (text value) c1 else c1 in
  match description with
  | Some d => Category.set_description (Some d) c2
  | None => c2
  end.

(** PUT /categories/:id *)
Definition put_category (id : string) (req_body : body)
  : handler Category.t Empty_set :=
  let errors := validationResult put_category_chains req_body in
  if negb (bool_decide (errors = [])) then
    send 400 (MessageErrors "Validation failed" errors)
  else
    cats ← read_categories;
    match findIndex (category_with_id id) cats with
    | None => send 404 (Message "Category not found")
    | Some categoryIndex =>
      let name := req_body !! "name" in
      let value := req_body !! "value" in
      let description := req_body !! "description" in
      if truthy value &&
         some (λ cat, bool_decide (Some (Category.value cat) = value) &&
                      negb (bool_decide (Category._id cat = id))) cats
      then send 400 (Message "Category value already exists")
      else
        old ← category_at categoryIndex "Server error updating category";
        now ← new_Date;
        let updatedCategory :=
          Category.set_updatedAt now (merge_category old name value description) in
        cats ← read_categories;
        write_categories (<[categoryIndex := updatedCategory]> cats);;
        send 200 (MessageWith "Category updated successfully" updatedCategory)
    end.

(** DELETE /categories/:id *)
Definition delete_category (id : string) : handler Category.t Empty_set :=
  cats ← read_categories;
  match findIndex (category_with_id id) cats with
  | None => send 404 (Message "Category not found")
  | Some categoryIndex =>
    write_categories (splice1 categoryIndex cats);;
    send 200 (Message "Category deleted successfully")
  end.

(** PATCH /categories/:id/toggle-status *)
Definition patch_category_toggle_status (id : string)
  : handler Category.t Empty_set :=
  cats ← read_categories;
  match findIndex (category_with_id id) cats with
  | None => send 404 (Message "Category not found")
  | Some categoryIndex =>
    let server_error := "Server error updating category status" in
    c ← category_at categoryIndex server_error;
    mutate_category categoryIndex
      (Category.set_isActive (negb (Category.isActive c)));;
    now ← new_Date;
    mutate_category categoryIndex (Category.set_updatedAt now);;
    c' ← category_at categoryIndex server_error;
    send 200 (MessageWith
                ("Category " +:+
                 (if Category.isActive c' then "activated" else "deactivated")
                 +:+ " successfully") c')
  end.

(** ** Branches routes *)

(** [branch => branch._id === req.params.id] *)
Definition branch_with_id (id : string) (branch : Branch.t) : bool :=
  bool_decide (Branch._id branch = id).

Definition branch_at (i : nat) (server_error : string)
  : handler Branch.t Branch.t :=
  brs ← read_branches;
  match brs !! i with
  | Some b => mret b
  | None => send 500 (Message server_error)
  end.

Definition mutate_branch (i : nat) (f : Branch.t → Branch.t)
  : handler Branch.t unit :=
  brs ← read_branches;
  write_branches (alter f i brs).

(** GET /branches *)
Definition get_branches : handler Branch.t Empty_set :=
  brs ← read_branches;
  send 200 (Listing (List.filter Branch.isActive brs)
                    (length (List.filter Branch.isActive brs))).

(** GET /branches/all *)
Definition get_branches_all : handler Branch.t Empty_set :=
  brs ← read_branches;
  send 200 (Listing brs (length brs)).

(** GET /branches/:id *)
Definition get_branch (id : string) : handler Branch.t Empty_set :=
  brs ← read_branches;
  match find (branch_with_id id) brs with
  | None => send 404 (Message "Branch not found")
  | Some branch => send 200 (Single branch)
  end.

(** DELETE /branches/:id *)
Definition delete_branch (id : string) : handler Branch.t Empty_set :=
  brs ← read_branches;
  match findIndex (branch_with_id id) brs with
  | None => send 404 (Message "Branch not found")
  | Some branchIndex =>
    write_branches (splice1 branchIndex brs);;
    send 200 (Message "Branch deleted successfully")
  end.

(** PATCH /branches/:id/toggle-status *)
Definition patch_branch_toggle_status (id : string)
  : handler Branch.t Empty_set :=
  brs ← read_branches;
  match findIndex (branch_with_id id) brs with
  | None => send 404 (Message "Branch not found")
  | Some branchIndex =>
    let server_error := "Server error updating branch status" in
    b ← branch_at branchIndex server_error;
    mutate_branch branchIndex (Branch.set_isActive (negb (Branch.isActive b)));;
    now ← new_Date;
    mutate_branch branchIndex (Branch.set_updatedAt now);;
    b' ← branch_at branchIndex server_error;
    send 200 (MessageWith
                ("Branch " +:+
                 (if Branch.isActive b' then "activated" else "deactivated")
                 +:+ " successfully") b')
  end.

(** The object spread of PUT /branches/:id, before [updatedAt]. *)
Definition merge_branch (old : Branch.t)
    (name description address phone email : jsval) : Branch.t :=
  let b1 := if truthy name then Branch.set_name (text name) old else old in
  let b2 := match description with
            | Some d => Branch.set_description (Some d) b1 | None => b1 end in
  let b3 := match address with
            | Some d => Branch.set_address (Some d) b2 | None => b2 end in
  let b4 := match phone with
            | Some d => Branch.set_phone (Some d) b3 | None => b3 end in
  match email with
  | Some d => Branch.set_email (Some d) b4
  | None => b4
  end.

Section Settings.

(** The e-mail grammar behind [.isEmail()] belongs to the validation library;
    the routes are parametric in it. *)
Variable isEmail : string → bool.

(** [String.prototype.toLowerCase] belongs to the runtime; the branch routes
    are parametric in it as well. *)
Variable toLowerCase : string → string.

Definition optional_branch_chains : list chain :=
  [ Chain "description" (optional true)
      [ (isLength_max 500, "Description cannot exceed 500 characters") ];
    Chain "address" (optional true)
      [ (isLength_max 200, "Address cannot exceed 200 characters") ];
    Chain "phone" (optional true)
      [ (isLength_max 20, "Phone number cannot exceed 20 characters") ];
    Chain "email" (optional true)
      [ (isEmail_by isEmail, "Invalid email format") ] ].

Definition post_branches_chains : list chain :=
  Chain "name" required
    [ (notEmpty, "Branch name is required");
      (isLength_max 100, "Branch name cannot exceed 100 characters") ]
  :: optional_branch_chains.

Definition put_branch_chains : list chain :=
  Chain "name" (optional false)
    [ (notEmpty, "Branch name cannot be empty");
      (isLength_max 100, "Branch name cannot exceed 100 characters") ]
  :: optional_branch_chains.

(** POST /branches *)
Definition post_branches (req_body : body) : handler Branch.t Empty_set :=
  let errors := validationResult post_branches_chains req_body in
  if negb (bool_decide (errors = [])) then
    send 400 (MessageErrors "Validation failed" errors)
  else
    let name := req_body !! "name" in
    let description := req_body !! "description" in
    let address := req_body !! "address" in
    let phone := req_body !! "phone" in
    let email := req_body !! "email" in
    brs ← read_branches;
    if some (λ branch, bool_decide (toLowerCase (Branch.name branch)
                                    = toLowerCase (text name))) brs
    then send 400 (Message "Branch name already exists")
    else
      now ← Date_now;
      created ← new_Date;
      updated ← new_Date;
      let newBranch :=
        Branch.mk (Number_toString now) (text name)
                  (or_undefined description) (or_undefined address)
                  (or_undefined phone) (or_undefined email)
                  true created updated in
      brs ← read_branches;
      write_branches (push brs newBranch);;
      send 201 (MessageWith "Branch created successfully" newBranch).

(** PUT /branches/:id *)
Definition put_branch (id : string) (req_body : body)
  : handler Branch.t Empty_set :=
  let errors := validationResult put_branch_chains req_body in
  if negb (bool_decide (errors = [])) then
    send 400 (MessageErrors "Validation failed" errors)
  else
    brs ← read_branches;
    match findIndex (branch_with_id id) brs with
    | None => send 404 (Message "Branch not found")
    | Some branchIndex =>
      let name := req_body !! "name" in
      let description := req_body !! "description" in
      let address := req_body !! "address" in
      let phone := req_body !! "phone" in
      let email := req_body !! "email" in
      if truthy name &&
         some (λ branch, bool_decide (toLowerCase (Branch.name branch)
                                      = toLowerCase (text name)) &&
                         negb (bool_decide (Branch._id branch = id))) brs
      then send 400 (Message "Branch name already exists")
      else
        old ← branch_at branchIndex "Server error updating branch";
        now ← new_Date;
        let updatedBranch :=
          Branch.set_updatedAt now
            (merge_branch old name description address phone email) in
        brs ← read_branches;
        write_branches (<[branchIndex := updatedBranch]> brs);;
        send 200 (MessageWith "Branch updated successfully" updatedBranch)
    end.

(** ** The router *)

Inductive request :=
  | GET_categories
  | GET_categories_all
  | GET_category (id : string)
  | POST_categories (req_body : body)
  | PUT_category (id : string) (req_body : body)
  | DELETE_category (id : string)
  | PATCH_category_toggle_status (id : string)
  | GET_branches
  | GET_branches_all
  | GET_branch (id : string)
  | POST_branches (req_body : body)
  | PUT_branch (id : string) (req_body : body)
  | DELETE_branch (id : string)
  | PATCH_branch_toggle_status (id : string).

Inductive reply :=
  | CategoryReply (r : response Category.t)
  | BranchReply (r : response Branch.t).

Definition route_categories (h : handler Category.t Empty_set) (w : world)
  : reply * world :=
  let '(r, w') := run_handler h w in (CategoryReply r, w').
Definition route_branches (h : handler Branch.t Empty_set) (w : world)
  : reply * world :=
  let '(r, w') := run_handler h w in (BranchReply r, w').

Definition serve (q : request) : world → reply * world :=
  match q with
  | GET_categories => route_categories get_categories
  | GET_categories_all => route_categories get_categories_all
  | GET_category id => route_categories (get_category id)
  | POST_categories b => route_categories (post_categories b)
  | PUT_category id b => route_categories (put_category id b)
  | DELETE_category id => route_categories (delete_category id)
  | PATCH_category_toggle_status id =>
      route_categories (patch_category_toggle_status id)
  | GET_branches => route_branches get_branches
  | GET_branches_all => route_branches get_branches_all
  | GET_branch id => route_branches (get_branch id)
  | POST_branches b => route_branches (post_branches b)
  | PUT_branch id b => route_branches (put_branch id b)
  | DELETE_branch id => route_branches (delete_branch id)
  | PATCH_branch_toggle_status id =>
      route_branches (patch_branch_toggle_status id)
  end.

(** Requests are served one after the other. *)
Fixpoint serve_all (qs : list request) (w : world) : list reply * world :=
  match qs with
  | [] => ([], w)
  | q :: qs' =>
    let '(r, w1) := serve q w in
    let '(rs, w2) := serve_all qs' w1 in
    (r :: rs, w2)
  end.

End Settings.

(** ** The module at load time

    The seed records are built when the module is loaded; each [createdAt]
    and [updatedAt] takes one reading of the clock, categories first. *)
Definition boot (clk : nat → N) : world :=
  World
    [ Category.mk "1" "Frozen Products" "frozen-products" "Frozen Products"
        (Some "Products that need to be kept frozen") true (clk 0) (clk 1);
      Category.mk "2" "Main Products" "main-products" "Main Products"
        (Some "Primary food products") true (clk 2) (clk 3);
      Category.mk "3" "Desserts and Drinks" "desserts-drinks"
        "Desserts and Drinks"
        (Some "Sweet treats and beverages") true (clk 4) (clk 5);
      Category.mk "4" "Packaging Materials" "packaging-materials"
        "Packaging Materials"
        (Some "Materials for packaging products") true (clk 6) (clk 7);
      Category.mk "5" "Cleaning Materials" "cleaning-materials"
        "Cleaning Materials"
        (Some "Cleaning supplies and materials") true (clk 8) (clk 9) ]
    [ Branch.mk "1" "Main Branch" (Some "Primary restaurant location")
        (Some "123 Main Street, Seoul") (Some "+82-2-1234-5678")
        (Some "main@restaurant.com") true (clk 10) (clk 11);
      Branch.mk "2" "Downtown Branch" (Some "Downtown location")
        (Some "456 Downtown Ave, Seoul") (Some "+82-2-2345-6789")
        (Some "downtown@restaurant.com") true (clk 12) (clk 13) ]
    clk 14.

(** A state is reachable when some sequence of requests leads to it from the
    freshly loaded module, under some behaviour of the clock. *)
Definition reachable (isEmail : string → bool)
    (toLowerCase : string → string) (w : world) : Prop :=
  ∃ clk qs, w = (serve_all isEmail toLowerCase qs (boot clk)).2.

(** ** Specification vocabulary *)

(** The error kinds of the two registries, read off the replies. *)
Definition ValidationFailed (errors : list verror) (r : reply) : Prop :=
  errors ≠ [] ∧
  (r = CategoryReply (400, MessageErrors "Validation failed" errors) ∨
   r = BranchReply (400, MessageErrors "Validation failed" errors)).

Definition Conflict (r : reply) : Prop :=
  r = CategoryReply (400, Message "Category value already exists") ∨
  r = BranchReply (400, Message "Branch name already exists").

Definition NotFound (r : reply) : Prop :=
  r = CategoryReply (404, Message "Category not found") ∨
  r = BranchReply (404, Message "Branch not found").

Definition status_of (r : reply) : nat :=
  match r with
  | CategoryReply (status, _) => status
  | BranchReply (status, _) => status
  end.

Definition create_or_update (q : request) : Prop :=
  match q with
  | POST_categories _ | PUT_category _ _
  | POST_branches _ | PUT_branch _ _ => True
  | _ => False
  end.

(** The number of records whose flag is set, counted one by one. *)
Fixpoint count_true {A} (p : A → bool) (l : list A) : nat :=
  match l with
  | [] => 0
  | x :: l' => (if p x then 1 else 0) + count_true p l'
  end.

(** Two texts are equal ignoring letter case when the runtime's
    [toLowerCase] gives them the same image. *)
Definition equal_ignoring_case (toLowerCase : string → string)
    (a b : string) : Prop :=
  toLowerCase a = toLowerCase b.

(** What is known of every [toLowerCase]: on text of ASCII characters it is
    [ascii_lower]. *)
Definition is_ascii (c : ascii) : bool := (N_of_ascii c <? 128)%N.

Definition lowers_ascii (toLowerCase : string → string) : Prop :=
  ∀ s, all_chars is_ascii s = true → toLowerCase s = ascii_lower s.

(** The case map of Latin-1 text written one element per character: A-Z and
    the capitals from À to Þ (the sign × apart) move 32 places up. It
    stands for the runtime's [toLowerCase] in the examples. *)
Definition latin1_lower_char (c : ascii) : ascii :=
  let n := N_of_ascii c in
  if (((65 <=? n) && (n <=? 90)) ||
      ((192 <=? n) && (n <=? 222) && negb (n =? 215)))%N
  then ascii_of_N (n + 32) else c.

Fixpoint latin1_toLowerCase (s : string) : string :=
  match s with
  | EmptyString => EmptyString
  | String c s' => String (latin1_lower_char c) (latin1_toLowerCase s')
  end.

(** Field constraints of the data model, as the specification words them.
    A slug is a non-empty text of lowercase letters, digits and hyphens. *)
Definition slug_char (c : ascii) : Prop :=
  (97 ≤ N_of_ascii c ≤ 122)%N ∨ (48 ≤ N_of_ascii c ≤ 57)%N ∨ c = "-"%char.

Definition slug (s : string) : Prop :=
  s ≠ "" ∧ ∀ i c, String.get i s = Some c → slug_char c.

Inductive operation := Create | Update.

(** [name]: required on create; non-empty and at most 100 characters
    whenever it is present. *)
Definition name_violated (op : operation) (v : jsval) : Prop :=
  match v with
  | None => op = Create
  | Some s => s = "" ∨ 100 < String.length s
  end.

(** [value]: required on create; a slug whenever it is present. *)
Definition value_violated (op : operation) (v : jsval) : Prop :=
  match v with
  | None => op = Create
  | Some s => ¬ slug s
  end.

(** An optional text longer than its bound. *)
Definition too_long (max : nat) (v : jsval) : Prop :=
  ∃ s, v = Some s ∧ max < String.length s.

(** [email]: a supplied, non-empty e-mail outside the grammar. *)
Definition email_violated (isEmail : string → bool) (v : jsval) : Prop :=
  ∃ s, v = Some s ∧ s ≠ "" ∧ isEmail s = false.

Definition category_violation (op : operation) (b : body) (f : string)
  : Prop :=
  (f = "name" ∧ name_violated op (b !! "name")) ∨
  (f = "value" ∧ value_violated op (b !! "value")) ∨
  (f = "description" ∧ too_long 500 (b !! "description")).

Definition branch_violation (isEmail : string → bool) (op : operation)
    (b : body) (f : string) : Prop :=
  (f = "name" ∧ name_violated op (b !! "name")) ∨
  (f = "description" ∧ too_long 500 (b !! "description")) ∨
  (f = "address" ∧ too_long 200 (b !! "address")) ∨
  (f = "phone" ∧ too_long 20 (b !! "phone")) ∨
  (f = "email" ∧ email_violated isEmail (b !! "email")).

(** The field constraints a request violates. *)
Definition violation (isEmail : string → bool) (q : request) (f : string)
  : Prop :=
  match q with
  | POST_categories b => category_violation Create b f
  | PUT_category _ b => category_violation Update b f
  | POST_branches b => branch_violation isEmail Create b f
  | PUT_branch _ b => branch_violation isEmail Update b f
  | _ => False
  end.

(** The ids handed out by the successful creates (status 201) among the
    replies to a sequence of requests, per registry, oldest first. *)
Definition created_category_id (r : reply) : option string :=
  match r with
  | CategoryReply (status, MessageWith _ c) =>
      if bool_decide (status = 201) then Some (Category._id c) else None
  | _ => None
  end.

Definition created_branch_id (r : reply) : option string :=
  match r with
  | BranchReply (status, MessageWith _ b) =>
      if bool_decide (status = 201) then Some (Branch._id b) else None
  | _ => None
  end.

Definition created_category_ids (rs : list reply) : list string :=
  omap created_category_id rs.
Definition created_branch_ids (rs : list reply) : list string :=
  omap created_branch_id rs.

(** The clock readings at which the successful creates of a run took their
    ids, per registry, oldest first: a create names its record after the
    first reading it takes. *)
Fixpoint category_creation_readings (isEmail : string → bool)
    (toLowerCase : string → string) (qs : list request) (w : world)
  : list N :=
  match qs with
  | [] => []
  | q :: qs' =>
    match created_category_id (serve isEmail toLowerCase q w).1 with
    | Some _ => [clock w (reads w)]
    | None => []
    end
    ++ category_creation_readings isEmail toLowerCase qs'
         (serve isEmail toLowerCase q w).2
  end.

Fixpoint branch_creation_readings (isEmail : string → bool)
    (toLowerCase : string → string) (qs : list request) (w : world)
  : list N :=
  match qs with
  | [] => []
  | q :: qs' =>
    match created_branch_id (serve isEmail toLowerCase q w).1 with
    | Some _ => [clock w (reads w)]
    | None => []
    end
    ++ branch_creation_readings isEmail toLowerCase qs'
         (serve isEmail toLowerCase q w).2
  end.

(** An optional field that the request leaves out or supplies as ['']. *)
Definition empty_or_omitted (v : jsval) : Prop := v = None ∨ v = Some "".

(** A request body written as a list of fields. *)
Definition json_body (fields : list (string * string)) : body :=
  list_to_map fields.

(** Sample environments for the examples: a clock that advances by one
    millisecond per reading, a clock whose readings after the module is
    loaded (14 readings) all fall within one later millisecond, a text of a
    given length, and a toy e-mail grammar. *)
Definition advancing_clock (n : nat) : N := (1700000000000 + N.of_nat n)%N.
Definition burst_clock (n : nat) : N :=
  if (n <? 14)%nat then 1700000000000%N else 1700000005000%N.

Fixpoint text_of_length (n : nat) : string :=
  match n with
  | 0 => ""
  | S n' => String "x" (text_of_length n')
  end.

Fixpoint has_at_sign (s : string) : bool :=
  match s with
  | EmptyString => false
  | String c s' => bool_decide (c = "@"%char) || has_at_sign s'
  end.

(** The records built by the create and toggle routes, and the chains of
    each operation. *)
Definition new_category (b : body) (now created updated : N) : Category.t :=
  Category.mk (Number_toString now) (text (b !! "name")) (text (b !! "value"))
    (text (b !! "name")) (or_undefined (b !! "description")) true
    created updated.

Definition toggled_category (now : N) (c : Category.t) : Category.t :=
  Category.set_updatedAt now
    (Category.set_isActive (negb (Category.isActive c)) c).

Definition new_branch (b : body) (now created updated : N) : Branch.t :=
  Branch.mk (Number_toString now) (text (b !! "name"))
    (or_undefined (b !! "description")) (or_undefined (b !! "address"))
    (or_undefined (b !! "phone")) (or_undefined (b !! "email")) true
    created updated.

Definition toggled_branch (now : N) (b : Branch.t) : Branch.t :=
  Branch.set_updatedAt now (Branch.set_isActive (negb (Branch.isActive b)) b).

Definition category_chains (op : operation) : list chain :=
  match op with
  | Create => post_categories_chains
  | Update => put_category_chains
  end.

Definition branch_chains (isEmail : string → bool) (op : operation)
  : list chain :=
  match op with
  | Create => post_branches_chains isEmail
  | Update => put_branch_chains isEmail
  end.

(** Requests by registry, and the requests that only read. *)
Definition category_request (q : request) : Prop :=
  match q with
  | GET_categories | GET_categories_all | GET_category _
  | POST_categories _ | PUT_category _ _ | DELETE_category _
  | PATCH_category_toggle_status _ => True
  | _ => False
  end.

Definition branch_request (q : request) : Prop :=
  match q with
  | GET_branches | GET_branches_all | GET_branch _
  | POST_branches _ | PUT_branch _ _ | DELETE_branch _
  | PATCH_branch_toggle_status _ => True
  | _ => False
  end.

Definition read_only (q : request) : Prop :=
  match q with
  | GET_categories | GET_categories_all | GET_category _
  | GET_branches | GET_branches_all | GET_branch _ => True
  | _ => False
  end.

(** What a record keeps for life: its id and its creation time. *)
Definition category_identity (c : Category.t) : string * N :=
  (Category._id c, Category.createdAt c).
Definition branch_identity (b : Branch.t) : string * N :=
  (Branch._id b, Branch.createdAt b).

(** An optional text within its bound. *)
Definition within (max : nat) (v : jsval) : Prop :=
  ∀ s, v = Some s → (String.length s ≤ max)%nat.

(** Records whose fields meet the constraints the validators enforce. *)
Definition well_formed_category (c : Category.t) : Prop :=
  Category.name c ≠ "" ∧
  (String.length (Category.name c) ≤ 100)%nat ∧
  slug (Category.value c) ∧
  Category.label c = Category.name c ∧
  within 500 (Category.description c).

Definition well_formed_branch (isEmail : string → bool) (b : Branch.t)
  : Prop :=
  Branch.name b ≠ "" ∧
  (String.length (Branch.name b) ≤ 100)%nat ∧
  within 500 (Branch.description b) ∧
  within 200 (Branch.address b) ∧
  within 20 (Branch.phone b) ∧
  (∀ e, Branch.email b = Some e → e = "" ∨ isEmail e = true).

(** Two timestamps taken from the clock in this order, before the current
    reading. *)
Definition stamped (w : world) (created updated : N) : Prop :=
  ∃ i j, (i ≤ j)%nat ∧ (j < reads w)%nat ∧
         created = clock w i ∧ updated = clock w j.

(** Ids that are pairwise distinct and each the decimal form of one of the
    given numbers. *)
Definition ids_among (ns : list N) (ids : list string) : Prop :=
  NoDup ids ∧ ∀ id, id ∈ ids → ∃ n, n ∈ ns ∧ id = Number_toString n.

(** The create and delete requests of each registry. *)
Definition creates_category (q : request) : Prop :=
  match q with POST_categories _ => True | _ => False end.
Definition deletes_category (q : request) : Prop :=
  match q with DELETE_category _ => True | _ => False end.
Definition creates_branch (q : request) : Prop :=
  match q with POST_branches _ => True | _ => False end.
Definition deletes_branch (q : request) : Prop :=
  match q with DELETE_branch _ => True | _ => False end.

(** ** Array helpers *)

Lemma findIndex_Some {A} (p : A → bool) (l : list A) (i : nat) :
  findIndex p l = Some i →
  ∃ x, l !! i = Some x ∧ p x = true ∧ find p l = Some x ∧
       ∀ j y, j < i → l !! j = Some y → p y = false.
Proof.
  revert i. induction l as [|a l IH]; intros i Hi; simpl in Hi; [done|].
  unfold find in *. simpl. destruct (p a) eqn:Hpa.
  - injection Hi as <-. exists a. repeat split; auto. intros j y Hj. lia.
  - destruct (findIndex p l) as [k|] eqn:Hk; simpl in Hi; [|done].
    injection Hi as <-. destruct (IH k eq_refl) as (x & Hx & Hpx & Hf & Hlt).
    exists x. repeat split; auto.
    intros [|j] y Hj Hy; simpl in Hy.
    + congruence.
    + apply (Hlt j); [lia | done].
Qed.

Lemma findIndex_None {A} (p : A → bool) (l : list A) :
  findIndex p l = None → find p l = None ∧ ∀ x, x ∈ l → p x = false.
Proof.
  induction l as [|a l IH]; simpl; intros Hn.
  - split; [done|]. intros x Hx. by apply elem_of_nil in Hx.
  - unfold find in *. simpl. destruct (p a) eqn:Hpa; [done|].
    destruct (findIndex p l) eqn:Hk; simpl in Hn; [done|].
    destruct (IH eq_refl) as [Hf Hall]. split; [done|].
    intros x Hx. apply elem_of_cons in Hx as [->|Hx]; auto.
Qed.

Lemma find_Some_findIndex {A} (p : A → bool) (l : list A) (x : A) :
  find p l = Some x → ∃ i, findIndex p l = Some i ∧ l !! i = Some x.
Proof.
  intros Hf. destruct (findIndex p l) as [i|] eqn:Hi.
  - destruct (findIndex_Some p l i Hi) as (y & Hy & _ & Hf' & _).
    exists i. split; [done|]. congruence.
  - apply findIndex_None in Hi as [Hn _]. congruence.
Qed.

Lemma some_true_iff {A} (p : A → bool) (l : list A) :
  some p l = true ↔ ∃ x, x ∈ l ∧ p x = true.
Proof.
  unfold some. rewrite existsb_exists. split; intros (x & Hx & Hp);
    exists x; split; auto; by apply list_elem_of_In.
Qed.

Lemma count_true_filter {A} (p : A → bool) (l : list A) :
  length (List.filter p l) = count_true p l.
Proof.
  induction l as [|a l IH]; simpl; [done|].
  destruct (p a); simpl; by rewrite IH.
Qed.

(** Unfolding of the monad down to plain state passing. *)
Ltac unfold_monad :=
  unfold run_handler, category_at, mutate_category, branch_at, mutate_branch,
    mbind, handler_bind, mret, handler_ret, send, Date_now, new_Date,
    read_categories, write_categories, read_branches, write_branches in *;
  simpl in *.

(** ** Listing *)

(** C7. Listing the active records of either registry always answers 200
    with exactly the records whose [isActive] flag is set, in collection
    order, and a [total] equal to the length of that list; the length is the
    number of records whose flag is set, an empty collection gives the empty
    list with total 0, and the state is left as it was. *)
Theorem list_active_exact (w : world) :
  (∃ items,
     run_handler get_categories w = ((200, Listing items (length items)), w) ∧
     items = List.filter Category.isActive (categories w) ∧
     (∀ c, c ∈ items ↔ c ∈ categories w ∧ Category.isActive c = true) ∧
     length items = count_true Category.isActive (categories w) ∧
     (categories w = [] → items = [] ∧ length items = 0)) ∧
  (∃ items,
     run_handler get_branches w = ((200, Listing items (length items)), w) ∧
     items = List.filter Branch.isActive (branches w) ∧
     (∀ b, b ∈ items ↔ b ∈ branches w ∧ Branch.isActive b = true) ∧
     length items = count_true Branch.isActive (branches w) ∧
     (branches w = [] → items = [] ∧ length items = 0)).
Proof.
  split; eexists; (split; [reflexivity|]); (split; [reflexivity|]);
    (split; [|split]).
  - intros c. rewrite !list_elem_of_In. apply filter_In.
  - apply count_true_filter.
  - by intros ->.
  - intros c. rewrite !list_elem_of_In. apply filter_In.
  - apply count_true_filter.
  - by intros ->.
Qed.

(** ** What each callback computes

    The equations below run the monad once and for all; the theorems on the
    registries are proved from them. *)

Lemma post_categories_run (b : body) (w : world) :
  run_handler (post_categories b) w =
  let errors := validationResult post_categories_chains b in
  if bool_decide (errors = []) then
    if some (λ cat, bool_decide (Some (Category.value cat) = b !! "value"))
            (categories w)
    then ((400, Message "Category value already exists"), w)
    else
      let c := new_category b (clock w (reads w)) (clock w (S (reads w)))
                 (clock w (S (S (reads w)))) in
      ((201, MessageWith "Category created successfully" c),
       World (categories w ++ [c]) (branches w) (clock w)
             (S (S (S (reads w)))))
  else ((400, MessageErrors "Validation failed" errors), w).
Proof.
  unfold post_categories. simpl. case_bool_decide; simpl; [|done].
  unfold_monad. by destruct (some _ (categories w)).
Qed.

Lemma put_category_run (id : string) (b : body) (w : world) :
  run_handler (put_category id b) w =
  let errors := validationResult put_category_chains b in
  if bool_decide (errors = []) then
    match findIndex (category_with_id id) (categories w) with
    | None => ((404, Message "Category not found"), w)
    | Some i =>
      if truthy (b !! "value") &&
         some (λ cat, bool_decide (Some (Category.value cat) = b !! "value") &&
                      negb (bool_decide (Category._id cat = id)))
              (categories w)
      then ((400, Message "Category value already exists"), w)
      else
        match categories w !! i with
        | Some old =>
          let u := Category.set_updatedAt (clock w (reads w))
                     (merge_category old (b !! "name") (b !! "value")
                                     (b !! "description")) in
          ((200, MessageWith "Category updated successfully" u),
           World (<[i := u]> (categories w)) (branches w) (clock w)
                 (S (reads w)))
        | None => ((500, Message "Server error updating category"), w)
        end
    end
  else ((400, MessageErrors "Validation failed" errors), w).
Proof.
  unfold put_category. simpl. case_bool_decide; simpl; [|done].
  unfold_monad. destruct (findIndex _ _) as [i|]; [|done].
  destruct (truthy _ && some _ _); [done|].
  by destruct (categories w !! i).
Qed.

Lemma delete_category_run (id : string) (w : world) :
  run_handler (delete_category id) w =
  match findIndex (category_with_id id) (categories w) with
  | None => ((404, Message "Category not found"), w)
  | Some i =>
    ((200, Message "Category deleted successfully"),
     World (delete i (categories w)) (branches w) (clock w) (reads w))
  end.
Proof.
  unfold delete_category. unfold_monad. by destruct (findIndex _ _).
Qed.

Lemma get_category_run (id : string) (w : world) :
  run_handler (get_category id) w =
  match find (category_with_id id) (categories w) with
  | None => ((404, Message "Category not found"), w)
  | Some c => ((200, Single c), w)
  end.
Proof. unfold get_category. unfold_monad. by destruct (find _ _). Qed.

Lemma patch_category_toggle_status_run (id : string) (w : world) :
  run_handler (patch_category_toggle_status id) w =
  match findIndex (category_with_id id) (categories w) with
  | None => ((404, Message "Category not found"), w)
  | Some i =>
    match categories w !! i with
    | Some c =>
      let c' := toggled_category (clock w (reads w)) c in
      ((200, MessageWith
               ("Category " +:+
                (if Category.isActive c' then "activated" else "deactivated")
                +:+ " successfully") c'),
       World (<[i := c']> (categories w)) (branches w) (clock w)
             (S (reads w)))
    | None => ((500, Message "Server error updating category status"), w)
    end
  end.
Proof.
  unfold patch_category_toggle_status. unfold_monad.
  destruct (findIndex _ _) as [i|]; [|done].
  destruct (categories w !! i) as [c|] eqn:Hc; simpl; [|done].
  rewrite !list_lookup_alter_eq, Hc. simpl.
  rewrite list_alter_alter_eq, list_insert_alter.
  f_equal. f_equal. apply list_alter_ext; [|done].
  intros x Hx. rewrite Hc in Hx. by injection Hx as <-.
Qed.

Lemma post_branches_run isEmail toLowerCase (b : body) (w : world) :
  run_handler (post_branches isEmail toLowerCase b) w =
  let errors := validationResult (post_branches_chains isEmail) b in
  if bool_decide (errors = []) then
    if some (λ branch, bool_decide (toLowerCase (Branch.name branch)
                                    = toLowerCase (text (b !! "name"))))
            (branches w)
    then ((400, Message "Branch name already exists"), w)
    else
      let c := new_branch b (clock w (reads w)) (clock w (S (reads w)))
                 (clock w (S (S (reads w)))) in
      ((201, MessageWith "Branch created successfully" c),
       World (categories w) (branches w ++ [c]) (clock w)
             (S (S (S (reads w)))))
  else ((400, MessageErrors "Validation failed" errors), w).
Proof.
  unfold post_branches. simpl. case_bool_decide; simpl; [|done].
  unfold_monad. by destruct (some _ (branches w)).
Qed.

Lemma put_branch_run isEmail toLowerCase (id : string) (b : body) (w : world) :
  run_handler (put_branch isEmail toLowerCase id b) w =
  let errors := validationResult (put_branch_chains isEmail) b in
  if bool_decide (errors = []) then
    match findIndex (branch_with_id id) (branches w) with
    | None => ((404, Message "Branch not found"), w)
    | Some i =>
      if truthy (b !! "name") &&
         some (λ branch, bool_decide (toLowerCase (Branch.name branch)
                                      = toLowerCase (text (b !! "name"))) &&
                         negb (bool_decide (Branch._id branch = id)))
              (branches w)
      then ((400, Message "Branch name already exists"), w)
      else
        match branches w !! i with
        | Some old =>
          let u := Branch.set_updatedAt (clock w (reads w))
                     (merge_branch old (b !! "name") (b !! "description")
                        (b !! "address") (b !! "phone") (b !! "email")) in
          ((200, MessageWith "Branch updated successfully" u),
           World (categories w) (<[i := u]> (branches w)) (clock w)
                 (S (reads w)))
        | None => ((500, Message "Server error updating branch"), w)
        end
    end
  else ((400, MessageErrors "Validation failed" errors), w).
Proof.
  unfold put_branch. simpl. case_bool_decide; simpl; [|done].
  unfold_monad. destruct (findIndex _ _) as [i|]; [|done].
  destruct (truthy _ && some _ _); [done|].
  by destruct (branches w !! i).
Qed.

Lemma delete_branch_run (id : string) (w : world) :
  run_handler (delete_branch id) w =
  match findIndex (branch_with_id id) (branches w) with
  | None => ((404, Message "Branch not found"), w)
  | Some i =>
    ((200, Message "Branch deleted successfully"),
     World (categories w) (delete i (branches w)) (clock w) (reads w))
  end.
Proof.
  unfold delete_branch. unfold_monad. by destruct (findIndex _ _).
Qed.

Lemma get_branch_run (id : string) (w : world) :
  run_handler (get_branch id) w =
  match find (branch_with_id id) (branches w) with
  | None => ((404, Message "Branch not found"), w)
  | Some c => ((200, Single c), w)
  end.
Proof. unfold get_branch. unfold_monad. by destruct (find _ _). Qed.

Lemma patch_branch_toggle_status_run (id : string) (w : world) :
  run_handler (patch_branch_toggle_status id) w =
  match findIndex (branch_with_id id) (branches w) with
  | None => ((404, Message "Branch not found"), w)
  | Some i =>
    match branches w !! i with
    | Some c =>
      let c' := toggled_branch (clock w (reads w)) c in
      ((200, MessageWith
               ("Branch " +:+
                (if Branch.isActive c' then "activated" else "deactivated")
                +:+ " successfully") c'),
       World (categories w) (<[i := c']> (branches w)) (clock w)
             (S (reads w)))
    | None => ((500, Message "Server error updating branch status"), w)
    end
  end.
Proof.
  unfold patch_branch_toggle_status. unfold_monad.
  destruct (findIndex _ _) as [i|]; [|done].
  destruct (branches w !! i) as [c|] eqn:Hc; simpl; [|done].
  rewrite !list_lookup_alter_eq, Hc. simpl.
  rewrite list_alter_alter_eq, list_insert_alter.
  f_equal. f_equal. apply list_alter_ext; [|done].
  intros x Hx. rewrite Hc in Hx. by injection Hx as <-.
Qed.

(** The index found by [findIndex] is in range, so the 500 answers above
    are never sent: every route answers 200, 201, 400 or 404. *)
Lemma findIndex_lookup {A} (p : A → bool) (l : list A) (i : nat) :
  findIndex p l = Some i → is_Some (l !! i).
Proof.
  intros Hi. destruct (findIndex_Some p l i Hi) as (x & Hx & _). by exists x.
Qed.

Lemma serve_status isEmail toLowerCase (q : request) (w : world) :
  status_of (serve isEmail toLowerCase q w).1 ∈ [200; 201; 400; 404].
Proof.
  destruct q; simpl; unfold route_categories, route_branches;
    rewrite ?get_category_run, ?post_categories_run, ?put_category_run,
      ?delete_category_run, ?patch_category_toggle_status_run,
      ?get_branch_run, ?post_branches_run, ?put_branch_run,
      ?delete_branch_run, ?patch_branch_toggle_status_run;
    unfold get_categories, get_categories_all, get_branches, get_branches_all;
    unfold_monad;
    repeat case_match; simplify_eq; simpl;
    try (set_unfold; tauto);
    match goal with
    | Hi : findIndex _ ?l = Some ?i, Hn : ?l !! ?i = None |- _ =>
        apply findIndex_lookup in Hi; rewrite Hn in Hi; by destruct Hi
    end.
Qed.

(** ** Failed writes *)

(** C2. A create or update request, on either registry, that is answered
    with a validation failure or with a conflict leaves both collections
    exactly as they were. *)
Theorem failed_write_keeps_collections isEmail toLowerCase (q : request) (w : world)
    (errors : list verror) :
  create_or_update q →
  ValidationFailed errors (serve isEmail toLowerCase q w).1 ∨
    Conflict (serve isEmail toLowerCase q w).1 →
  categories (serve isEmail toLowerCase q w).2 = categories w ∧
  branches (serve isEmail toLowerCase q w).2 = branches w.
Proof.
  intros Hq Hfail.
  assert (Hst : status_of (serve isEmail toLowerCase q w).1 = 400).
  { by destruct Hfail as [[_ [->| ->]]|[->| ->]]. }
  clear Hfail. revert Hst.
  destruct q; try done; simpl; unfold route_categories, route_branches.
  - rewrite post_categories_run. simpl.
    repeat case_match; simplify_eq; simpl; (done || lia).
  - rewrite put_category_run. simpl.
    repeat case_match; simplify_eq; simpl; (done || lia).
  - rewrite post_branches_run. simpl.
    repeat case_match; simplify_eq; simpl; (done || lia).
  - rewrite put_branch_run. simpl.
    repeat case_match; simplify_eq; simpl; (done || lia).
Qed.

(** ** Uniqueness checks on create *)

Lemma N_of_ascii_inj (a b : ascii) : N_of_ascii a = N_of_ascii b → a = b.
Proof.
  intros Hab. rewrite <- (ascii_N_embedding a), <- (ascii_N_embedding b).
  by rewrite Hab.
Qed.

Lemma equal_ignoring_case_toLowerCase (toLowerCase : string → string)
    (s t : string) :
  equal_ignoring_case toLowerCase s t ↔ toLowerCase s = toLowerCase t.
Proof. done. Qed.

Lemma latin1_lowers_ascii : lowers_ascii latin1_toLowerCase.
Proof.
  intros s. induction s as [|c s IH]; simpl; [done|].
  intros Hs. apply andb_true_iff in Hs as [Hc Hs]. rewrite (IH Hs).
  f_equal. unfold latin1_lower_char, ascii_toLowerCase, is_ascii in *.
  apply N.ltb_lt in Hc.
  destruct ((192 <=? N_of_ascii c) && (N_of_ascii c <=? 222)
            && negb (N_of_ascii c =? 215))%N eqn:Hhigh.
  - apply andb_true_iff in Hhigh as [Hhigh _].
    apply andb_true_iff in Hhigh as [Hhigh _]. apply N.leb_le in Hhigh. lia.
  - by rewrite orb_false_r.
Qed.

(** C3, as the code has it. Creating a category whose value equals, character
    for character, the value of a record already in the collection (active or
    not) never appends a record and always answers 400: with the conflict
    message when the request passes field validation, and with the validation
    errors when it does not. *)
Theorem category_create_existing_value (b : body) (w : world)
    (c : Category.t) :
  c ∈ categories w →
  b !! "value" = Some (Category.value c) →
  let errors := validationResult post_categories_chains b in
  (run_handler (post_categories b) w).2 = w ∧
  (errors = [] →
   (run_handler (post_categories b) w).1
   = (400, Message "Category value already exists")) ∧
  (errors ≠ [] →
   (run_handler (post_categories b) w).1
   = (400, MessageErrors "Validation failed" errors)).
Proof.
  intros Hc Hv errors. rewrite post_categories_run. fold errors. simpl.
  assert (Hsome : some (λ cat, bool_decide (Some (Category.value cat)
                                            = b !! "value"))
                       (categories w) = true).
  { apply some_true_iff. exists c. split; [done|].
    apply bool_decide_eq_true. by rewrite Hv. }
  rewrite Hsome. case_bool_decide; simpl; repeat split; done.
Qed.

(** C4, as the code has it. Creating a branch whose name equals, ignoring
    letter case, the name of a branch already in the collection (active or
    not) never appends a record and always answers 400: with the conflict
    message when the request passes field validation, and with the validation
    errors when it does not. Two names are equal ignoring letter case when
    [toLowerCase] gives them the same image, whatever the runtime's
    [toLowerCase] is. In particular, [toLowerCase] being [ascii_lower] on
    ASCII text, when a branch named "Main Branch" exists, creating one named
    "main branch" is answered with the conflict message. *)
Theorem branch_create_existing_name isEmail toLowerCase (w : world) :
  (∀ (b : body) (c : Branch.t) (name : string),
     c ∈ branches w →
     b !! "name" = Some name →
     equal_ignoring_case toLowerCase (Branch.name c) name →
     let errors := validationResult (post_branches_chains isEmail) b in
     (run_handler (post_branches isEmail toLowerCase b) w).2 = w ∧
     (errors = [] →
      (run_handler (post_branches isEmail toLowerCase b) w).1
      = (400, Message "Branch name already exists")) ∧
     (errors ≠ [] →
      (run_handler (post_branches isEmail toLowerCase b) w).1
      = (400, MessageErrors "Validation failed" errors))) ∧
  (lowers_ascii toLowerCase →
   ∀ c : Branch.t,
     c ∈ branches w →
     Branch.name c = "Main Branch" →
     run_handler (post_branches isEmail toLowerCase
                    (json_body [("name", "main branch")])) w
     = ((400, Message "Branch name already exists"), w)).
Proof.
  split.
  - intros b c name Hc Hn Heq errors.
    rewrite post_branches_run. fold errors. simpl.
    assert (Hsome : some (λ branch,
                       bool_decide (toLowerCase (Branch.name branch)
                                    = toLowerCase (text (b !! "name"))))
                     (branches w) = true).
    { apply some_true_iff. exists c. split; [done|].
      apply bool_decide_eq_true. rewrite Hn. simpl.
      by apply equal_ignoring_case_toLowerCase. }
    rewrite Hsome. case_bool_decide; simpl; repeat split; done.
  - intros Hascii c Hc Hmain. rewrite post_branches_run. cbv zeta.
    assert (Hv : validationResult (post_branches_chains isEmail)
                   (json_body [("name", "main branch")]) = [])
      by (by vm_compute).
    rewrite Hv.
    assert (Hsome : some (λ branch,
                       bool_decide (toLowerCase (Branch.name branch)
                         = toLowerCase
                             (text (json_body [("name", "main branch")]
                                    !! "name"))))
                     (branches w) = true).
    { apply some_true_iff. exists c. split; [done|].
      apply bool_decide_eq_true. rewrite Hmain.
      change (text (json_body [("name", "main branch")] !! "name"))
        with "main branch".
      by rewrite !Hascii. }
    by rewrite Hsome.
Qed.

(** Counterexample to C3 as stated: a create request that repeats the
    seeded value [frozen-products] but has an empty name is answered with
    the validation errors, not with the conflict message. *)
Lemma category_create_existing_value_invalid_name :
  let b := json_body [("name", ""); ("value", "frozen-products")] in
  let w := boot burst_clock in
  (∃ c, c ∈ categories w ∧ b !! "value" = Some (Category.value c)) ∧
  (run_handler (post_categories b) w).1
  = (400, MessageErrors "Validation failed"
            [VError "name" "Category name is required" (Some "")]) ∧
  ¬ Conflict (CategoryReply (run_handler (post_categories b) w).1).
Proof.
  split; [|split].
  - eexists. split; [apply list_elem_of_here|reflexivity].
  - by vm_compute.
  - intros [Hc|Hc]; vm_compute in Hc; discriminate Hc.
Qed.

(** Counterexample to C4 as stated: a create request named "main branch"
    that also carries a description of 501 characters is answered with the
    validation errors, not with the conflict message, although
    "Main Branch" exists. *)
Lemma branch_create_existing_name_invalid_description :
  let b := json_body [("name", "main branch");
                      ("description", text_of_length 501)] in
  let w := boot burst_clock in
  (∃ c, c ∈ branches w ∧ Branch.name c = "Main Branch" ∧
        equal_ignoring_case latin1_toLowerCase (Branch.name c) "main branch") ∧
  (run_handler (post_branches has_at_sign latin1_toLowerCase b) w).1
  = (400, MessageErrors "Validation failed"
            [VError "description" "Description cannot exceed 500 characters"
                    (Some (text_of_length 501))]) ∧
  ¬ Conflict (BranchReply (run_handler (post_branches has_at_sign latin1_toLowerCase b) w).1).
Proof.
  split; [|split].
  - eexists. split; [apply list_elem_of_here|]. split; [reflexivity|].
    by apply equal_ignoring_case_toLowerCase.
  - by vm_compute.
  - intros [Hc|Hc]; vm_compute in Hc; discriminate Hc.
Qed.

(** ** Update, toggle and delete of an existing record *)

Lemma find_insert_found {A} (p : A → bool) (l : list A) (i : nat) (u : A) :
  findIndex p l = Some i → p u = true → find p (<[i := u]> l) = Some u.
Proof.
  unfold find. revert i. induction l as [|a l IH]; intros i Hi Hu; [done|].
  simpl in Hi. destruct (p a) eqn:Hpa.
  - injection Hi as <-. simpl. by rewrite Hu.
  - destruct (findIndex p l) as [k|]; simpl in Hi; [|done].
    injection Hi as <-. simpl. rewrite Hpa. by apply IH.
Qed.



(** C5, as the code has it. For the category that a fetch resolves under
    [id] (the first record carrying [id]), updating with the body
    [{description: ''}] stores and returns the record with its description
    set to the empty text, [updatedAt] set to the current clock reading, and
    [name], [value], [label], [_id], [createdAt] and [isActive] as before;
    updating with the body [{}] stores and returns the record with only
    [updatedAt] changed, to the current clock reading. Only the entry of
    that record changes: every other record, a later one carrying the same
    [id] included, is left as it was. *)
Theorem category_update_description_or_nothing (id : string) (w : world)
    (old : Category.t) :
  find (category_with_id id) (categories w) = Some old →
  let now := clock w (reads w) in
  let cleared :=
    Category.mk (Category._id old) (Category.name old) (Category.value old)
      (Category.label old) (Some "") (Category.isActive old)
      (Category.createdAt old) now in
  let touched :=
    Category.mk (Category._id old) (Category.name old) (Category.value old)
      (Category.label old) (Category.description old) (Category.isActive old)
      (Category.createdAt old) now in
  let clear := run_handler (put_category id (json_body [("description", "")])) w in
  let touch := run_handler (put_category id (json_body [])) w in
  ∃ i, categories w !! i = Some old ∧
    clear.1 = (200, MessageWith "Category updated successfully" cleared) ∧
    categories clear.2 = <[i := cleared]> (categories w) ∧
    find (category_with_id id) (categories clear.2) = Some cleared ∧
    touch.1 = (200, MessageWith "Category updated successfully" touched) ∧
    categories touch.2 = <[i := touched]> (categories w) ∧
    find (category_with_id id) (categories touch.2) = Some touched.
Proof.
  intros Hfind now cleared touched clear touch.
  destruct (find_Some_findIndex _ _ _ Hfind) as (i & Hi & Hold).
  destruct (findIndex_Some _ _ _ Hi) as (x & Hx & Hid & _).
  assert (x = old) as -> by congruence.
  unfold category_with_id in Hid. apply bool_decide_eq_true in Hid.
  exists i. split; [done|].
  subst clear touch. rewrite !put_category_run. cbv zeta.
  assert (Hv1 : validationResult put_category_chains
                  (json_body [("description", "")]) = []) by (by vm_compute).
  assert (Hv2 : validationResult put_category_chains (json_body []) = [])
    by (by vm_compute).
  rewrite Hv1, Hv2, Hi, Hold. simpl.
  repeat split; try done.
  - apply find_insert_found; [done|].
    unfold category_with_id. by apply bool_decide_eq_true.
  - apply find_insert_found; [done|].
    unfold category_with_id. by apply bool_decide_eq_true.
Qed.

(** Counterexample to C5 as stated: two categories created within one
    millisecond share an id; updating that id with [{description: ''}]
    clears the description of the first, "Tea", and leaves the existing
    category "Ice" with its description "cold". *)
Lemma category_update_shared_id :
  let w := (serve_all has_at_sign latin1_toLowerCase
              [POST_categories (json_body [("name", "Tea"); ("value", "tea");
                                           ("description", "hot")]);
               POST_categories (json_body [("name", "Ice"); ("value", "ice");
                                           ("description", "cold")])]
              (boot burst_clock)).2 in
  let ice := Category.mk "1700000005000" "Ice" "ice" "Ice" (Some "cold") true
               1700000005000 1700000005000 in
  let u := run_handler (put_category (Category._id ice)
                          (json_body [("description", "")])) w in
  reachable has_at_sign latin1_toLowerCase w ∧
  categories w !! 6%nat = Some ice ∧
  u.1 = (200, MessageWith "Category updated successfully"
                (Category.mk "1700000005000" "Tea" "tea" "Tea" (Some "") true
                   1700000005000 1700000005000)) ∧
  categories u.2 !! 6%nat = Some ice ∧
  Category.description ice ≠ Some "".
Proof.
  split; [|split; [|split; [|split]]].
  - by eexists burst_clock, _.
  - by vm_compute.
  - by vm_compute.
  - by vm_compute.
  - discriminate.
Qed.

Lemma findIndex_insert_found {A} (p : A → bool) (l : list A) (i : nat)
    (u : A) :
  findIndex p l = Some i → p u = true → findIndex p (<[i := u]> l) = Some i.
Proof.
  revert i. induction l as [|a l IH]; intros i Hi Hu; [done|].
  simpl in Hi. destruct (p a) eqn:Hpa.
  - injection Hi as <-. simpl. by rewrite Hu.
  - destruct (findIndex p l) as [k|] eqn:Hk; simpl in Hi; [|done].
    injection Hi as <-. simpl. by rewrite Hpa, (IH k).
Qed.

(** C6, as the code has it. For the record that a fetch resolves under [id]
    in either registry (the first record carrying [id]), two toggles in a
    row return and store a record whose [isActive] is the value before the
    first toggle (the first toggle negates it). Each toggle sets
    [updatedAt] to the clock reading it takes: the new [updatedAt] is
    strictly greater than the previous one exactly when that reading is
    strictly later than the previous [updatedAt]. Only the entry of that
    record changes: every other record, a later one carrying the same [id]
    included, is left as it was. *)
Theorem toggle_twice (id : string) (w : world) :
  (∀ c, find (category_with_id id) (categories w) = Some c →
     let t1 := run_handler (patch_category_toggle_status id) w in
     let t2 := run_handler (patch_category_toggle_status id) t1.2 in
     ∃ m1 m2 c1 c2,
       t1.1 = (200, MessageWith m1 c1) ∧
       t2.1 = (200, MessageWith m2 c2) ∧
       find (category_with_id id) (categories t1.2) = Some c1 ∧
       find (category_with_id id) (categories t2.2) = Some c2 ∧
       Category.isActive c1 = negb (Category.isActive c) ∧
       Category.isActive c2 = Category.isActive c ∧
       Category.updatedAt c1 = clock w (reads w) ∧
       Category.updatedAt c2 = clock w (S (reads w)) ∧
       c2 = Category.set_updatedAt (clock w (S (reads w))) c ∧
       ((Category.updatedAt c < Category.updatedAt c1)%N
        ↔ (Category.updatedAt c < clock w (reads w))%N) ∧
       ((Category.updatedAt c1 < Category.updatedAt c2)%N
        ↔ (clock w (reads w) < clock w (S (reads w)))%N) ∧
       ∃ i, findIndex (category_with_id id) (categories w) = Some i ∧
            categories w !! i = Some c ∧
            categories t1.2 = <[i := c1]> (categories w) ∧
            categories t2.2 = <[i := c2]> (categories w)) ∧
  (∀ b, find (branch_with_id id) (branches w) = Some b →
     let t1 := run_handler (patch_branch_toggle_status id) w in
     let t2 := run_handler (patch_branch_toggle_status id) t1.2 in
     ∃ m1 m2 b1 b2,
       t1.1 = (200, MessageWith m1 b1) ∧
       t2.1 = (200, MessageWith m2 b2) ∧
       find (branch_with_id id) (branches t1.2) = Some b1 ∧
       find (branch_with_id id) (branches t2.2) = Some b2 ∧
       Branch.isActive b1 = negb (Branch.isActive b) ∧
       Branch.isActive b2 = Branch.isActive b ∧
       Branch.updatedAt b1 = clock w (reads w) ∧
       Branch.updatedAt b2 = clock w (S (reads w)) ∧
       b2 = Branch.set_updatedAt (clock w (S (reads w))) b ∧
       ((Branch.updatedAt b < Branch.updatedAt b1)%N
        ↔ (Branch.updatedAt b < clock w (reads w))%N) ∧
       ((Branch.updatedAt b1 < Branch.updatedAt b2)%N
        ↔ (clock w (reads w) < clock w (S (reads w)))%N) ∧
       ∃ i, findIndex (branch_with_id id) (branches w) = Some i ∧
            branches w !! i = Some b ∧
            branches t1.2 = <[i := b1]> (branches w) ∧
            branches t2.2 = <[i := b2]> (branches w)).
Proof.
  split.
  - intros c Hfind t1 t2.
    destruct (find_Some_findIndex _ _ _ Hfind) as (i & Hi & Hc).
    destruct (findIndex_Some _ _ _ Hi) as (x & Hx & Hid & _).
    assert (x = c) as -> by congruence. clear Hx.
    pose (c1 := toggled_category (clock w (reads w)) c).
    assert (Hi1 : findIndex (category_with_id id) (<[i := c1]> (categories w))
                  = Some i) by (by apply findIndex_insert_found).
    assert (Hc1 : <[i := c1]> (categories w) !! i = Some c1).
    { apply list_lookup_insert_eq. by eapply lookup_lt_Some. }
    subst t1 t2. rewrite patch_category_toggle_status_run, Hi, Hc. simpl.
    rewrite patch_category_toggle_status_run. simpl. fold c1.
    rewrite Hi1, Hc1. simpl. rewrite list_insert_insert_eq.
    eexists _, _, _, _.
    split; [reflexivity|]. split; [reflexivity|].
    split; [by apply find_insert_found|].
    split; [by apply find_insert_found|].
    subst c1. destruct c as [? ? ? ? ? act ? ?]. unfold toggled_category.
    simpl. rewrite negb_involutive. repeat split; try done.
    exists i. by repeat split.
  - intros b Hfind t1 t2.
    destruct (find_Some_findIndex _ _ _ Hfind) as (i & Hi & Hc).
    destruct (findIndex_Some _ _ _ Hi) as (x & Hx & Hid & _).
    assert (x = b) as -> by congruence. clear Hx.
    pose (b1 := toggled_branch (clock w (reads w)) b).
    assert (Hi1 : findIndex (branch_with_id id) (<[i := b1]> (branches w))
                  = Some i) by (by apply findIndex_insert_found).
    assert (Hc1 : <[i := b1]> (branches w) !! i = Some b1).
    { apply list_lookup_insert_eq. by eapply lookup_lt_Some. }
    subst t1 t2. rewrite patch_branch_toggle_status_run, Hi, Hc. simpl.
    rewrite patch_branch_toggle_status_run. simpl. fold b1.
    rewrite Hi1, Hc1. simpl. rewrite list_insert_insert_eq.
    eexists _, _, _, _.
    split; [reflexivity|]. split; [reflexivity|].
    split; [by apply find_insert_found|].
    split; [by apply find_insert_found|].
    subst b1. destruct b as [? ? ? ? ? ? act ? ?]. unfold toggled_branch.
    simpl. rewrite negb_involutive. repeat split; try done.
    exists i. by repeat split.
Qed.

(** Counterexample to C6 as stated: after the module is loaded, two toggles
    of the seeded category "1" that fall within the same millisecond give
    the second toggle an [updatedAt] equal to, not greater than, the one
    left by the first. *)
Lemma toggle_twice_same_millisecond :
  let w := boot burst_clock in
  let t1 := run_handler (patch_category_toggle_status "1") w in
  let t2 := run_handler (patch_category_toggle_status "1") t1.2 in
  ∃ m1 m2 c1 c2,
    t1.1 = (200, MessageWith m1 c1) ∧
    t2.1 = (200, MessageWith m2 c2) ∧
    Category.updatedAt c1 = 1700000005000%N ∧
    Category.updatedAt c2 = 1700000005000%N ∧
    ¬ (Category.updatedAt c1 < Category.updatedAt c2)%N.
Proof.
  vm_compute. eexists _, _, _, _.
  split; [reflexivity|]. split; [reflexivity|]. simpl.
  split; [reflexivity|]. split; [reflexivity|]. discriminate.
Qed.



(** ** Optional fields on create *)

Lemma or_undefined_empty (v : jsval) : empty_or_omitted v → or_undefined v = None.
Proof. by intros [->| ->]. Qed.

(** C10. Whenever a create succeeds, in either registry, the record that is
    returned is the one appended to the collection, and each optional field
    (category description; branch description, address, phone, email) that
    the request omits or supplies as the empty text is absent from it. An
    update that supplies the description as the empty text stores the empty
    text instead, so the two records differ in that field. *)
Theorem create_drops_empty_optional_fields isEmail toLowerCase (w : world) :
  (∀ (b : body) (m : string) (c : Category.t),
     (run_handler (post_categories b) w).1 = (201, MessageWith m c) →
     categories (run_handler (post_categories b) w).2 = push (categories w) c ∧
     (empty_or_omitted (b !! "description") → Category.description c = None)) ∧
  (∀ (b : body) (m : string) (c : Branch.t),
     (run_handler (post_branches isEmail toLowerCase b) w).1 = (201, MessageWith m c) →
     branches (run_handler (post_branches isEmail toLowerCase b) w).2 = push (branches w) c ∧
     (empty_or_omitted (b !! "description") → Branch.description c = None) ∧
     (empty_or_omitted (b !! "address") → Branch.address c = None) ∧
     (empty_or_omitted (b !! "phone") → Branch.phone c = None) ∧
     (empty_or_omitted (b !! "email") → Branch.email c = None)) ∧
  (∀ (id m : string) (u : Category.t),
     (run_handler (put_category id (json_body [("description", "")])) w).1
     = (200, MessageWith m u) →
     Category.description u = Some "" ∧ Category.description u ≠ None) ∧
  (∀ (id m : string) (u : Branch.t),
     (run_handler (put_branch isEmail toLowerCase id (json_body [("description", "")])) w).1
     = (200, MessageWith m u) →
     Branch.description u = Some "" ∧ Branch.description u ≠ None).
Proof.
  split; [|split; [|split]].
  - intros b m c. rewrite post_categories_run. cbv zeta.
    case_bool_decide; [|done].
    destruct (some _ _); [done|]. simpl. intros Hr. simplify_eq.
    split; [done|]. simpl. apply or_undefined_empty.
  - intros b m c. rewrite post_branches_run. cbv zeta.
    case_bool_decide; [|done].
    destruct (some _ _); [done|]. simpl. intros Hr. simplify_eq.
    split; [done|]. simpl. repeat split; apply or_undefined_empty.
  - intros id m u. rewrite put_category_run. cbv zeta.
    case_bool_decide; [|done].
    destruct (findIndex _ _) as [i|]; [|done].
    destruct (truthy _ && some _ _); [done|].
    destruct (categories w !! i) as [old|]; [|done].
    simpl. intros Hr. simplify_eq. done.
  - intros id m u. rewrite put_branch_run. cbv zeta.
    case_bool_decide; [|done].
    destruct (findIndex _ _) as [i|]; [|done].
    destruct (truthy _ && some _ _); [done|].
    destruct (branches w !! i) as [old|]; [|done].
    simpl. intros Hr. simplify_eq. done.
Qed.

(** ** Validation reports *)

Lemma run_chain_path (c : chain) (b : body) (e : verror) :
  e ∈ run_chain c b → path e = field c.
Proof.
  unfold run_chain. destruct (skipped _ _).
  - intros He. by apply elem_of_nil in He.
  - intros He. apply list_elem_of_omap in He as ([vd m] & _ & Hvd).
    destruct (check vd _); [done|]. by injection Hvd as <-.
Qed.

Lemma run_chain_reports (c : chain) (b : body) (vd : validator) (m : string) :
  skipped (presence_of c) (b !! field c) = false →
  (vd, m) ∈ checks c →
  check vd (default "" (b !! field c)) = false →
  ∃ e, e ∈ run_chain c b ∧ path e = field c.
Proof.
  intros Hs Hin Hck. unfold run_chain. rewrite Hs.
  exists (VError (field c) m (b !! field c)). split; [|done].
  apply list_elem_of_omap. exists (vd, m). split; [done|]. by rewrite Hck.
Qed.

Lemma validationResult_elem (cs : list chain) (b : body) (e : verror) :
  e ∈ validationResult cs b ↔ ∃ c, c ∈ cs ∧ e ∈ run_chain c b.
Proof.
  unfold validationResult. rewrite list_elem_of_join. split.
  - intros (l & He & Hl). apply list_elem_of_fmap in Hl as (c & -> & Hc).
    by exists c.
  - intros (c & Hc & He). exists (run_chain c b). split; [done|].
    apply list_elem_of_fmap. by exists c.
Qed.

Lemma all_chars_get (p : ascii → bool) (s : string) :
  all_chars p s = true ↔ ∀ i c, String.get i s = Some c → p c = true.
Proof.
  induction s as [|a s IH]; simpl.
  - split; [|done]. by intros _ i c.
  - rewrite andb_true_iff, IH. split.
    + intros [Ha Hs] [|i] c Hc; simpl in Hc.
      * by injection Hc as <-.
      * by apply (Hs i).
    + intros Hall. split.
      * by apply (Hall 0).
      * intros i c Hc. by apply (Hall (S i)).
Qed.

Lemma is_slug_char_spec (c : ascii) : is_slug_char c = true ↔ slug_char c.
Proof.
  unfold is_slug_char, slug_char. cbv zeta.
  rewrite !orb_true_iff, !andb_true_iff, !N.leb_le, N.eqb_eq.
  split.
  - intros [[H1|H1]|H1]; [left; lia|right; left; lia|].
    right. right. apply N_of_ascii_inj. by rewrite H1.
  - intros [H1|[H1| ->]]; [left; left; lia|left; right; lia|by right].
Qed.

Lemma check_matches_slug (s : string) : check matches_slug s = true ↔ slug s.
Proof.
  unfold slug. simpl. rewrite andb_true_iff, negb_true_iff,
    bool_decide_eq_false, all_chars_get.
  split; intros [Hne Hall]; (split; [done|]); intros i c Hc.
  - apply is_slug_char_spec. by apply (Hall i).
  - apply is_slug_char_spec. by apply (Hall i).
Qed.

(** A violated [name] constraint is reported by the name chain of the create
    routes, and by the one of the update routes. *)
Lemma name_chain_reports (op : operation) (b : body) (m1 m2 : string) :
  name_violated op (b !! "name") →
  ∃ e, e ∈ run_chain (Chain "name"
                        (match op with Create => required
                                     | Update => optional false end)
                        [(notEmpty, m1); (isLength_max 100, m2)]) b ∧
       path e = "name".
Proof.
  intros Hv. destruct (b !! "name") as [s|] eqn:Hb; simpl in Hv.
  - destruct Hv as [->|Hlong].
    + eapply (run_chain_reports (Chain "name" _ _) b notEmpty m1); simpl.
      * rewrite Hb. by destruct op.
      * left.
      * by rewrite Hb.
    + eapply (run_chain_reports (Chain "name" _ _) b (isLength_max 100) m2); simpl.
      * rewrite Hb. by destruct op.
      * right. left.
      * rewrite Hb. simpl. apply Nat.leb_gt. lia.
  - subst op. eapply (run_chain_reports (Chain "name" _ _) b notEmpty m1); simpl.
    + done.
    + left.
    + by rewrite Hb.
Qed.

Lemma value_chain_reports (op : operation) (b : body) (m1 m2 : string) :
  value_violated op (b !! "value") →
  ∃ e, e ∈ run_chain (Chain "value"
                        (match op with Create => required
                                     | Update => optional false end)
                        [(notEmpty, m1); (matches_slug, m2)]) b ∧
       path e = "value".
Proof.
  intros Hv. destruct (b !! "value") as [s|] eqn:Hb; simpl in Hv.
  - eapply (run_chain_reports (Chain "value" _ _) b matches_slug m2).
    + simpl. rewrite Hb. by destruct op.
    + right. left.
    + simpl field. rewrite Hb. apply not_true_is_false.
      intros Hck. by apply Hv, check_matches_slug.
  - subst op. eapply (run_chain_reports (Chain "value" _ _) b notEmpty m1); simpl.
    + done.
    + left.
    + by rewrite Hb.
Qed.

Lemma length_chain_reports (f : string) (max : nat) (b : body) (m : string) :
  too_long max (b !! f) →
  ∃ e, e ∈ run_chain (Chain f (optional true) [(isLength_max max, m)]) b ∧
       path e = f.
Proof.
  intros (s & Hb & Hlong).
  eapply (run_chain_reports (Chain f _ _) b (isLength_max max) m); simpl.
  - rewrite Hb. simpl. rewrite negb_involutive.
    apply bool_decide_eq_false. intros ->. simpl in Hlong. lia.
  - left.
  - rewrite Hb. simpl. apply Nat.leb_gt. lia.
Qed.

Lemma email_chain_reports isEmail (b : body) (m : string) :
  email_violated isEmail (b !! "email") →
  ∃ e, e ∈ run_chain (Chain "email" (optional true)
                        [(isEmail_by isEmail, m)]) b ∧
       path e = "email".
Proof.
  intros (s & Hb & Hne & Hbad).
  eapply (run_chain_reports (Chain "email" _ _) b (isEmail_by isEmail) m);
    simpl.
  - rewrite Hb. simpl. rewrite negb_involutive.
    by apply bool_decide_eq_false.
  - left.
  - by rewrite Hb.
Qed.

Lemma category_violation_reported (op : operation) (b : body) (f : string) :
  category_violation op b f →
  ∃ e, e ∈ validationResult (category_chains op) b ∧ path e = f.
Proof.
  intros [[-> Hv]|[[-> Hv]|[-> Hv]]].
  - destruct (name_chain_reports op b
                (match op with Create => "Category name is required"
                             | Update => "Category name cannot be empty" end)
                "Category name cannot exceed 100 characters" Hv)
      as (e & He & Hp).
    exists e. split; [|done]. apply validationResult_elem.
    eexists. split; [|exact He]. destruct op; left.
  - destruct (value_chain_reports op b
                (match op with Create => "Category value is required"
                             | Update => "Category value cannot be empty" end)
                "Category value must contain only lowercase letters, numbers, and hyphens"
                Hv) as (e & He & Hp).
    exists e. split; [|done]. apply validationResult_elem.
    eexists. split; [|exact He]. destruct op; right; left.
  - destruct (length_chain_reports "description" 500 b
                "Description cannot exceed 500 characters" Hv)
      as (e & He & Hp).
    exists e. split; [|done]. apply validationResult_elem.
    eexists. split; [|exact He]. destruct op; right; right; left.
Qed.

Lemma branch_violation_reported isEmail (op : operation) (b : body)
    (f : string) :
  branch_violation isEmail op b f →
  ∃ e, e ∈ validationResult (branch_chains isEmail op) b ∧ path e = f.
Proof.
  intros [[-> Hv]|[[-> Hv]|[[-> Hv]|[[-> Hv]|[-> Hv]]]]].
  - destruct (name_chain_reports op b
                (match op with Create => "Branch name is required"
                             | Update => "Branch name cannot be empty" end)
                "Branch name cannot exceed 100 characters" Hv)
      as (e & He & Hp).
    exists e. split; [|done]. apply validationResult_elem.
    eexists. split; [|exact He]. destruct op; left.
  - destruct (length_chain_reports "description" 500 b
                "Description cannot exceed 500 characters" Hv)
      as (e & He & Hp).
    exists e. split; [|done]. apply validationResult_elem.
    eexists. split; [|exact He]. destruct op; right; left.
  - destruct (length_chain_reports "address" 200 b
                "Address cannot exceed 200 characters" Hv)
      as (e & He & Hp).
    exists e. split; [|done]. apply validationResult_elem.
    eexists. split; [|exact He]. destruct op; right; right; left.
  - destruct (length_chain_reports "phone" 20 b
                "Phone number cannot exceed 20 characters" Hv)
      as (e & He & Hp).
    exists e. split; [|done]. apply validationResult_elem.
    eexists. split; [|exact He]. destruct op; right; right; right; left.
  - destruct (email_chain_reports isEmail b "Invalid email format" Hv)
      as (e & He & Hp).
    exists e. split; [|done]. apply validationResult_elem.
    eexists. split; [|exact He]. destruct op; do 4 right; left.
Qed.

(** C9. A create or update request, on either registry, that violates at
    least one field constraint is answered with one validation failure whose
    error list has an entry for every field whose constraint is violated;
    the state is left as it was. *)
Theorem validation_reports_every_field isEmail toLowerCase (q : request) (w : world) :
  (∃ f, violation isEmail q f) →
  ∃ errors,
    ValidationFailed errors (serve isEmail toLowerCase q w).1 ∧
    (serve isEmail toLowerCase q w).2 = w ∧
    ∀ f, violation isEmail q f → ∃ e, e ∈ errors ∧ path e = f.
Proof.
  intros (f0 & Hf0).
  destruct q as [| | |b|id b| | | | | |b|id b| |]; try done; simpl in *;
    unfold route_categories, route_branches.
  - exists (validationResult (category_chains Create) b).
    assert (Hne : validationResult (category_chains Create) b ≠ []).
    { destruct (category_violation_reported _ _ _ Hf0) as (e & He & _).
      intros Hnil. rewrite Hnil in He. by apply elem_of_nil in He. }
    rewrite post_categories_run. cbv zeta. simpl category_chains in *.
    rewrite bool_decide_eq_false_2 by done. simpl.
    split; [split; [done|by left]|]. split; [done|].
    intros f. apply (category_violation_reported Create).
  - exists (validationResult (category_chains Update) b).
    assert (Hne : validationResult (category_chains Update) b ≠ []).
    { destruct (category_violation_reported _ _ _ Hf0) as (e & He & _).
      intros Hnil. rewrite Hnil in He. by apply elem_of_nil in He. }
    rewrite put_category_run. cbv zeta. simpl category_chains in *.
    rewrite bool_decide_eq_false_2 by done. simpl.
    split; [split; [done|by left]|]. split; [done|].
    intros f. apply (category_violation_reported Update).
  - exists (validationResult (branch_chains isEmail Create) b).
    assert (Hne : validationResult (branch_chains isEmail Create) b ≠ []).
    { destruct (branch_violation_reported _ _ _ _ Hf0) as (e & He & _).
      intros Hnil. rewrite Hnil in He. by apply elem_of_nil in He. }
    rewrite post_branches_run. cbv zeta. simpl branch_chains in *.
    rewrite bool_decide_eq_false_2 by done. simpl.
    split; [split; [done|by right]|]. split; [done|].
    intros f. apply (branch_violation_reported isEmail Create).
  - exists (validationResult (branch_chains isEmail Update) b).
    assert (Hne : validationResult (branch_chains isEmail Update) b ≠ []).
    { destruct (branch_violation_reported _ _ _ _ Hf0) as (e & He & _).
      intros Hnil. rewrite Hnil in He. by apply elem_of_nil in He. }
    rewrite put_branch_run. cbv zeta. simpl branch_chains in *.
    rewrite bool_decide_eq_false_2 by done. simpl.
    split; [split; [done|by right]|]. split; [done|].
    intros f. apply (branch_violation_reported isEmail Update).
Qed.

(** ** Identifiers *)

Lemma Number_toString_inj (m n : N) :
  Number_toString m = Number_toString n → m = n.
Proof. apply pretty_N_inj. Qed.

Lemma clock_strictly_increasing (clk : nat → N) :
  (∀ n, (clk n < clk (S n))%N) → ∀ i j, i < j → (clk i < clk j)%N.
Proof.
  intros Hstep i j Hij. induction Hij as [|j _ IH].
  - apply Hstep.
  - etrans; [exact IH|apply Hstep].
Qed.

(** Every route leaves the clock itself alone and only moves forward in its
    readings; a create that succeeds names the record after the first
    reading it takes. *)
Lemma serve_clock isEmail toLowerCase (q : request) (w : world) :
  clock (serve isEmail toLowerCase q w).2 = clock w ∧
  (reads w ≤ reads (serve isEmail toLowerCase q w).2)%nat ∧
  (∀ id, created_category_id (serve isEmail toLowerCase q w).1 = Some id →
         id = Number_toString (clock w (reads w)) ∧
         reads w < reads (serve isEmail toLowerCase q w).2) ∧
  (∀ id, created_branch_id (serve isEmail toLowerCase q w).1 = Some id →
         id = Number_toString (clock w (reads w)) ∧
         reads w < reads (serve isEmail toLowerCase q w).2).
Proof.
  destruct q; simpl; unfold route_categories, route_branches;
    rewrite ?get_category_run, ?post_categories_run, ?put_category_run,
      ?delete_category_run, ?patch_category_toggle_status_run,
      ?get_branch_run, ?post_branches_run, ?put_branch_run,
      ?delete_branch_run, ?patch_branch_toggle_status_run;
    unfold get_categories, get_categories_all, get_branches, get_branches_all;
    unfold_monad;
    repeat case_match; simplify_eq; simpl;
    repeat split; intros; simplify_eq; simpl; try done; lia.
Qed.

(** Under a clock that advances between any two readings, the ids handed
    out while serving a sequence of requests are pairwise distinct, and each
    is the decimal form of a reading not taken before. *)
Lemma created_ids_fresh isEmail toLowerCase (qs : list request) (w : world) :
  (∀ n, (clock w n < clock w (S n))%N) →
  (NoDup (created_category_ids (serve_all isEmail toLowerCase qs w).1) ∧
   ∀ id, id ∈ created_category_ids (serve_all isEmail toLowerCase qs w).1 →
         ∃ k, (reads w ≤ k)%nat ∧ id = Number_toString (clock w k)) ∧
  (NoDup (created_branch_ids (serve_all isEmail toLowerCase qs w).1) ∧
   ∀ id, id ∈ created_branch_ids (serve_all isEmail toLowerCase qs w).1 →
         ∃ k, (reads w ≤ k)%nat ∧ id = Number_toString (clock w k)).
Proof.
  revert w. induction qs as [|q qs IH]; intros w Hclk; simpl.
  { repeat split; try apply NoDup_nil_2;
      intros id Hid; by apply elem_of_nil in Hid. }
  pose proof (serve_clock isEmail toLowerCase q w) as (Hc & Hr & Hcat & Hbr).
  destruct (serve isEmail toLowerCase q w) as [r w1] eqn:Hq. simpl in *.
  assert (Hclk1 : ∀ n, (clock w1 n < clock w1 (S n))%N) by (by rewrite Hc).
  specialize (IH w1 Hclk1).
  destruct (serve_all isEmail toLowerCase qs w1) as [rs w2]. simpl in *.
  rewrite Hc in IH. destruct IH as [[Hnd1 Hfrom1] [Hnd2 Hfrom2]].
  pose proof (clock_strictly_increasing (clock w) Hclk) as Hmono.
  unfold created_category_ids, created_branch_ids in *. simpl.
  split.
  - destruct (created_category_id r) as [id|] eqn:Hid.
    + destruct (Hcat id eq_refl) as [-> Hlt]. split.
      * apply NoDup_cons. split; [|done]. intros Hin.
        destruct (Hfrom1 _ Hin) as (k & Hk & Heq).
        apply Number_toString_inj in Heq.
        specialize (Hmono (reads w) k). lia.
      * intros id Hin. apply elem_of_cons in Hin as [->|Hin].
        -- by exists (reads w).
        -- destruct (Hfrom1 _ Hin) as (k & Hk & Heq). exists k.
           split; [lia|done].
    + split; [done|]. intros id Hin.
      destruct (Hfrom1 _ Hin) as (k & Hk & Heq). exists k. split; [lia|done].
  - destruct (created_branch_id r) as [id|] eqn:Hid.
    + destruct (Hbr id eq_refl) as [-> Hlt]. split.
      * apply NoDup_cons. split; [|done]. intros Hin.
        destruct (Hfrom2 _ Hin) as (k & Hk & Heq).
        apply Number_toString_inj in Heq.
        specialize (Hmono (reads w) k). lia.
      * intros id Hin. apply elem_of_cons in Hin as [->|Hin].
        -- by exists (reads w).
        -- destruct (Hfrom2 _ Hin) as (k & Hk & Heq). exists k.
           split; [lia|done].
    + split; [done|]. intros id Hin.
      destruct (Hfrom2 _ Hin) as (k & Hk & Heq). exists k. split; [lia|done].
Qed.

Lemma seed_id_not_a_reading (clk : nat → N) (k : nat) (seed : N) :
  (∀ n, (clk n < clk (S n))%N) → (seed < clk 0%nat)%N →
  Number_toString seed ≠ Number_toString (clk k).
Proof.
  intros Hclk H0 Heq. apply Number_toString_inj in Heq.
  destruct k as [|k]; [lia|].
  pose proof (clock_strictly_increasing clk Hclk 0 (S k)). lia.
Qed.

(** Under a clock that advances between any two readings and starts beyond
    the seeded ids, created ids never repeat and never hit a seed id. *)
Lemma created_ids_distinct_advancing isEmail toLowerCase (clk : nat → N) (qs : list request) :
  (∀ n, (clk n < clk (S n))%N) →
  (5 < clk 0%nat)%N →
  let rs := (serve_all isEmail toLowerCase qs (boot clk)).1 in
  NoDup ((Category._id <$> categories (boot clk)) ++ created_category_ids rs) ∧
  NoDup ((Branch._id <$> branches (boot clk)) ++ created_branch_ids rs).
Proof.
  intros Hclk H5 rs.
  destruct (created_ids_fresh isEmail toLowerCase qs (boot clk) Hclk)
    as [[Hnd1 Hfrom1] [Hnd2 Hfrom2]]. fold rs in Hnd1, Hfrom1, Hnd2, Hfrom2.
  assert (Hseed : ∀ seed k, (seed ≤ 5)%N →
            Number_toString seed ≠ Number_toString (clk k)).
  { intros seed k Hs. apply seed_id_not_a_reading; [done|lia]. }
  split; apply NoDup_app; (split; [|split; [|done]]).
  - apply (bool_decide_unpack _). by vm_compute.
  - simpl. intros id Hid Hin. destruct (Hfrom1 _ Hin) as (k & _ & ->).
    simpl in Hid. set_unfold in Hid.
    destruct Hid as [Hid|[Hid|[Hid|[Hid|[Hid|[]]]]]].
    + by apply (Hseed 1%N k).
    + by apply (Hseed 2%N k).
    + by apply (Hseed 3%N k).
    + by apply (Hseed 4%N k).
    + by apply (Hseed 5%N k).
  - apply (bool_decide_unpack _). by vm_compute.
  - simpl. intros id Hid Hin. destruct (Hfrom2 _ Hin) as (k & _ & ->).
    simpl in Hid. set_unfold in Hid.
    destruct Hid as [Hid|[Hid|[]]].
    + by apply (Hseed 1%N k).
    + by apply (Hseed 2%N k).
Qed.

#[local] Instance Number_toString_Inj : Inj (=) (=) Number_toString.
Proof. intros m n. apply Number_toString_inj. Qed.

Lemma created_ids_readings isEmail toLowerCase (qs : list request) (w : world) :
  created_category_ids (serve_all isEmail toLowerCase qs w).1
  = Number_toString <$> category_creation_readings isEmail toLowerCase qs w ∧
  created_branch_ids (serve_all isEmail toLowerCase qs w).1
  = Number_toString <$> branch_creation_readings isEmail toLowerCase qs w.
Proof.
  revert w. induction qs as [|q qs IH]; intros w; simpl; [done|].
  pose proof (serve_clock isEmail toLowerCase q w) as (_ & _ & Hcat & Hbr).
  destruct (serve isEmail toLowerCase q w) as [r w1] eqn:Hq. simpl in *.
  destruct (IH w1) as [IH1 IH2].
  destruct (serve_all isEmail toLowerCase qs w1) as [rs w2]. simpl in *.
  unfold created_category_ids, created_branch_ids in *. simpl.
  rewrite !fmap_app, <- IH1, <- IH2. split.
  - destruct (created_category_id r) as [id|]; [|done].
    by destruct (Hcat id eq_refl) as [-> _].
  - destruct (created_branch_id r) as [id|]; [|done].
    by destruct (Hbr id eq_refl) as [-> _].
Qed.

(** C1, as the code has it. The id of a created record is the decimal form
    of the clock reading taken at creation. Over any sequence of requests
    served by the freshly loaded module, the ids of the seed records and of
    the records created in a registry are pairwise distinct exactly when the
    readings at which the creates took their ids are pairwise distinct and
    differ from the seeded ids (1 to 5 for categories, 1 and 2 for
    branches). In particular they are pairwise distinct whenever the clock
    advances between any two readings and starts beyond 5. *)
Theorem created_ids_distinct isEmail toLowerCase (clk : nat → N) (qs : list request) :
  let rs := (serve_all isEmail toLowerCase qs (boot clk)).1 in
  let category_readings := category_creation_readings isEmail toLowerCase qs (boot clk) in
  let branch_readings := branch_creation_readings isEmail toLowerCase qs (boot clk) in
  (created_category_ids rs = Number_toString <$> category_readings ∧
   (NoDup ((Category._id <$> categories (boot clk))
           ++ created_category_ids rs)
    ↔ NoDup ([1; 2; 3; 4; 5]%N ++ category_readings))) ∧
  (created_branch_ids rs = Number_toString <$> branch_readings ∧
   (NoDup ((Branch._id <$> branches (boot clk)) ++ created_branch_ids rs)
    ↔ NoDup ([1; 2]%N ++ branch_readings))) ∧
  ((∀ n, (clk n < clk (S n))%N) → (5 < clk 0%nat)%N →
   NoDup ((Category._id <$> categories (boot clk))
          ++ created_category_ids rs) ∧
   NoDup ((Branch._id <$> branches (boot clk)) ++ created_branch_ids rs)).
Proof.
  intros rs category_readings branch_readings.
  destruct (created_ids_readings isEmail toLowerCase qs (boot clk)) as [Hcat Hbr].
  fold rs category_readings in Hcat. fold rs branch_readings in Hbr.
  split; [|split].
  - split; [done|]. rewrite Hcat.
    change (Category._id <$> categories (boot clk))
      with (Number_toString <$> [1; 2; 3; 4; 5]%N).
    rewrite <- fmap_app. apply (NoDup_fmap Number_toString).
  - split; [done|]. rewrite Hbr.
    change (Branch._id <$> branches (boot clk))
      with (Number_toString <$> [1; 2]%N).
    rewrite <- fmap_app. apply (NoDup_fmap Number_toString).
  - apply created_ids_distinct_advancing.
Qed.

(** Counterexample to C1 as stated: two valid creates that fall within the
    same millisecond are both answered 201 and receive the same id. *)
Lemma created_ids_same_millisecond :
  let qs :=
    [POST_categories (json_body [("name", "Tea"); ("value", "tea")]);
     POST_categories (json_body [("name", "Ice"); ("value", "ice")])] in
  let rs := (serve_all has_at_sign latin1_toLowerCase qs (boot burst_clock)).1 in
  status_of <$> rs = [201; 201] ∧
  created_category_ids rs = ["1700000005000"; "1700000005000"] ∧
  ¬ NoDup (created_category_ids rs).
Proof.
  split; [by vm_compute|]. split; [by vm_compute|].
  intros Hnd. vm_compute in Hnd. apply NoDup_cons in Hnd as [Hnotin _].
  apply Hnotin. left.
Qed.

(** ** The theorems at work on the seeded module *)

(** Witness for C1: two creates under the advancing clock. *)
Lemma created_ids_distinct_tea_ice :
  let qs :=
    [POST_categories (json_body [("name", "Tea"); ("value", "tea")]);
     POST_categories (json_body [("name", "Ice"); ("value", "ice")])] in
  let rs := (serve_all has_at_sign latin1_toLowerCase qs (boot advancing_clock)).1 in
  NoDup ((Category._id <$> categories (boot advancing_clock))
         ++ created_category_ids rs) ∧
  NoDup ((Branch._id <$> branches (boot advancing_clock))
         ++ created_branch_ids rs).
Proof.
  intros qs rs.
  apply (created_ids_distinct has_at_sign latin1_toLowerCase advancing_clock qs).
  - intros n. unfold advancing_clock. lia.
  - reflexivity.
Defined.

(** Witness for C2: a create with an empty name and an uppercase value. *)
Lemma failed_write_keeps_collections_upper :
  let q := POST_categories (json_body [("name", ""); ("value", "UPPER")]) in
  let w := boot advancing_clock in
  categories (serve has_at_sign latin1_toLowerCase q w).2 = categories w ∧
  branches (serve has_at_sign latin1_toLowerCase q w).2 = branches w.
Proof.
  intros q w.
  apply (failed_write_keeps_collections has_at_sign latin1_toLowerCase q w
           [VError "name" "Category name is required" (Some "");
            VError "value"
              "Category value must contain only lowercase letters, numbers, and hyphens"
              (Some "UPPER")]).
  - exact I.
  - left. split; [discriminate|]. left. reflexivity.
Defined.

(** Witness for C3: a valid create that repeats the seeded value. *)
Lemma category_create_existing_value_frozen :
  let b := json_body [("name", "X"); ("value", "frozen-products")] in
  let w := boot advancing_clock in
  run_handler (post_categories b) w
  = ((400, Message "Category value already exists"), w).
Proof.
  intros b w.
  destruct (category_create_existing_value b w
              (Category.mk "1" "Frozen Products" "frozen-products"
                 "Frozen Products"
                 (Some "Products that need to be kept frozen") true
                 1700000000000 1700000000001))
    as (Hw & Hok & _).
  - apply list_elem_of_here.
  - reflexivity.
  - specialize (Hok eq_refl).
    destruct (run_handler (post_categories b) w) as [r w']. simpl in *.
    by rewrite Hw, Hok.
Defined.

(** Witness for C4: "MAIN BRANCH" and "main branch" against the seeded
    "Main Branch". *)
Lemma branch_create_existing_name_capitals :
  let b := json_body [("name", "MAIN BRANCH")] in
  let w := boot advancing_clock in
  run_handler (post_branches has_at_sign latin1_toLowerCase b) w
  = ((400, Message "Branch name already exists"), w) ∧
  run_handler (post_branches has_at_sign latin1_toLowerCase
                 (json_body [("name", "main branch")])) w
  = ((400, Message "Branch name already exists"), w).
Proof.
  intros b w. split.
  - destruct (proj1 (branch_create_existing_name has_at_sign
                       latin1_toLowerCase w) b
                (Branch.mk "1" "Main Branch"
                   (Some "Primary restaurant location")
                   (Some "123 Main Street, Seoul") (Some "+82-2-1234-5678")
                   (Some "main@restaurant.com") true
                   1700000000010 1700000000011)
                "MAIN BRANCH")
      as (Hw & Hok & _).
    + apply list_elem_of_here.
    + reflexivity.
    + reflexivity.
    + specialize (Hok eq_refl).
      destruct (run_handler (post_branches has_at_sign latin1_toLowerCase b) w)
        as [r w'].
      simpl in *. by rewrite Hw, Hok.
  - apply (proj2 (branch_create_existing_name has_at_sign
                    latin1_toLowerCase w) latin1_lowers_ascii
             (Branch.mk "1" "Main Branch"
                (Some "Primary restaurant location")
                (Some "123 Main Street, Seoul") (Some "+82-2-1234-5678")
                (Some "main@restaurant.com") true
                1700000000010 1700000000011)).
    + apply list_elem_of_here.
    + reflexivity.
Defined.

(** Witness for C5: clearing the description of the seeded category "1". *)
Lemma category_update_description_or_nothing_frozen :
  let w := boot advancing_clock in
  (run_handler (put_category "1" (json_body [("description", "")])) w).1
  = (200, MessageWith "Category updated successfully"
            (Category.mk "1" "Frozen Products" "frozen-products"
               "Frozen Products" (Some "") true
               1700000000000 1700000000014)) ∧
  (run_handler (put_category "1" (json_body [])) w).1
  = (200, MessageWith "Category updated successfully"
            (Category.mk "1" "Frozen Products" "frozen-products"
               "Frozen Products"
               (Some "Products that need to be kept frozen") true
               1700000000000 1700000000014)).
Proof.
  intros w.
  destruct (category_update_description_or_nothing "1" w _ eq_refl)
    as (i & _ & Hclear & _ & _ & Htouch & _).
  split; [exact Hclear|exact Htouch].
Defined.

(** Witness for C6: two toggles of the seeded category "1" under the advancing
    clock. *)
Lemma toggle_twice_frozen :
  let w := boot advancing_clock in
  let t1 := run_handler (patch_category_toggle_status "1") w in
  let t2 := run_handler (patch_category_toggle_status "1") t1.2 in
  ∃ m1 m2 c1 c2,
    t1.1 = (200, MessageWith m1 c1) ∧
    t2.1 = (200, MessageWith m2 c2) ∧
    Category.isActive c2 = true ∧
    (Category.updatedAt c1 < Category.updatedAt c2)%N.
Proof.
  intros w t1 t2.
  destruct (proj1 (toggle_twice "1" w) _ eq_refl)
    as (m1 & m2 & c1 & c2 & H1 & H2 & _ & _ & _ & Hact & _ & _ & _ & _ & Hlt
        & _).
  exists m1, m2, c1, c2.
  split; [exact H1|]. split; [exact H2|]. split; [exact Hact|].
  apply Hlt. reflexivity.
Defined.


(** Witness for C9: an empty name together with an uppercase value. *)
Lemma validation_reports_every_field_upper :
  let q := POST_categories (json_body [("name", ""); ("value", "UPPER")]) in
  let w := boot advancing_clock in
  ∃ errors,
    ValidationFailed errors (serve has_at_sign latin1_toLowerCase q w).1 ∧
    (∃ e, e ∈ errors ∧ path e = "name") ∧
    (∃ e, e ∈ errors ∧ path e = "value").
Proof.
  intros q w.
  assert (Hname : violation has_at_sign q "name").
  { left. split; [reflexivity|]. left. reflexivity. }
  assert (Hvalue : violation has_at_sign q "value").
  { right. left. split; [reflexivity|]. change (¬ slug "UPPER").
    intros Hs. apply check_matches_slug in Hs. discriminate Hs. }
  destruct (validation_reports_every_field has_at_sign latin1_toLowerCase q w
              (ex_intro _ "name" Hname)) as (errors & Hfail & _ & Hall).
  exists errors. split; [exact Hfail|].
  split; apply Hall; assumption.
Defined.

(** Witness for C10: a category created with an empty description. *)
Lemma create_drops_empty_optional_fields_tea :
  let b := json_body [("name", "Tea"); ("value", "tea"); ("description", "")] in
  let w := boot advancing_clock in
  ∃ m c, (run_handler (post_categories b) w).1 = (201, MessageWith m c) ∧
         Category.description c = None.
Proof.
  intros b w. eexists _, _. split; [reflexivity|].
  apply (proj1 (create_drops_empty_optional_fields has_at_sign latin1_toLowerCase w) b _ _ eq_refl).
  right. reflexivity.
Defined.

(** ** Validation never rejects a request that meets the constraints *)

Lemma run_chain_failed_check (c : chain) (b : body) (e : verror) :
  e ∈ run_chain c b →
  skipped (presence_of c) (b !! field c) = false ∧
  path e = field c ∧
  ∃ vd m, (vd, m) ∈ checks c ∧
          check vd (default "" (b !! field c)) = false.
Proof.
  unfold run_chain. destruct (skipped _ _) eqn:Hs.
  - intros He. by apply elem_of_nil in He.
  - intros He. apply list_elem_of_omap in He as ([vd m] & Hin & Hvd).
    destruct (check vd _) eqn:Hck; [done|]. injection Hvd as <-.
    split; [done|]. split; [done|]. by exists vd, m.
Qed.

Lemma name_chain_sound (op : operation) (b : body) (m1 m2 : string)
    (e : verror) :
  e ∈ run_chain (Chain "name"
                   (match op with Create => required
                                | Update => optional false end)
                   [(notEmpty, m1); (isLength_max 100, m2)]) b →
  path e = "name" ∧ name_violated op (b !! "name").
Proof.
  intros He. apply run_chain_failed_check in He
    as (Hs & Hp & vd & m & Hin & Hck). simpl in *.
  split; [done|].
  destruct (b !! "name") as [s|] eqn:Hb; simpl in *.
  - set_unfold in Hin. destruct Hin as [Hin|[Hin|[]]]; simplify_eq; simpl in *.
    + left. apply negb_false_iff in Hck. by apply bool_decide_eq_true in Hck.
    + right. apply Nat.leb_gt in Hck. lia.
  - by destruct op.
Qed.

Lemma value_chain_sound (op : operation) (b : body) (m1 m2 : string)
    (e : verror) :
  e ∈ run_chain (Chain "value"
                   (match op with Create => required
                                | Update => optional false end)
                   [(notEmpty, m1); (matches_slug, m2)]) b →
  path e = "value" ∧ value_violated op (b !! "value").
Proof.
  intros He. apply run_chain_failed_check in He
    as (Hs & Hp & vd & m & Hin & Hck). simpl in *.
  split; [done|].
  destruct (b !! "value") as [s|] eqn:Hb; simpl in *.
  - set_unfold in Hin. destruct Hin as [Hin|[Hin|[]]]; simplify_eq.
    + intros [Hne _]. simpl in Hck. apply negb_false_iff in Hck.
      by apply bool_decide_eq_true in Hck.
    + intros Hslug. apply check_matches_slug in Hslug. congruence.
  - by destruct op.
Qed.

Lemma length_chain_sound (f : string) (max : nat) (b : body) (m : string)
    (e : verror) :
  e ∈ run_chain (Chain f (optional true) [(isLength_max max, m)]) b →
  path e = f ∧ too_long max (b !! f).
Proof.
  intros He. apply run_chain_failed_check in He
    as (Hs & Hp & vd & m' & Hin & Hck). simpl in *.
  split; [done|].
  destruct (b !! f) as [s|] eqn:Hb; simpl in *; [|done].
  exists s. split; [done|].
  set_unfold in Hin. destruct Hin as [Hin|[]]. simplify_eq. simpl in Hck.
  apply Nat.leb_gt in Hck. lia.
Qed.

Lemma email_chain_sound isEmail (b : body) (m : string) (e : verror) :
  e ∈ run_chain (Chain "email" (optional true) [(isEmail_by isEmail, m)]) b →
  path e = "email" ∧ email_violated isEmail (b !! "email").
Proof.
  intros He. apply run_chain_failed_check in He
    as (Hs & Hp & vd & m' & Hin & Hck). simpl in *.
  split; [done|].
  destruct (b !! "email") as [s|] eqn:Hb; simpl in *; [|done].
  exists s. split; [done|].
  rewrite negb_involutive in Hs. apply bool_decide_eq_false in Hs.
  set_unfold in Hin. destruct Hin as [Hin|[]]. by simplify_eq.
Qed.

Lemma category_errors_sound (op : operation) (b : body) (e : verror) :
  e ∈ validationResult (category_chains op) b →
  category_violation op b (path e).
Proof.
  intros He. apply validationResult_elem in He as (c & Hc & He).
  assert (Hcs : c ∈ [ Chain "name"
                        (match op with Create => required
                                     | Update => optional false end)
                        [ (notEmpty,
                           match op with
                           | Create => "Category name is required"
                           | Update => "Category name cannot be empty" end);
                          (isLength_max 100,
                           "Category name cannot exceed 100 characters") ];
                      Chain "value"
                        (match op with Create => required
                                     | Update => optional false end)
                        [ (notEmpty,
                           match op with
                           | Create => "Category value is required"
                           | Update => "Category value cannot be empty" end);
                          (matches_slug,
                           "Category value must contain only lowercase letters, numbers, and hyphens") ];
                      Chain "description" (optional true)
                        [ (isLength_max 500,
                           "Description cannot exceed 500 characters") ] ])
    by (by destruct op).
  clear Hc. set_unfold in Hcs. destruct Hcs as [->|[->|[->|[]]]].
  - apply name_chain_sound in He as [-> Hv]. by left.
  - apply value_chain_sound in He as [-> Hv]. right. by left.
  - apply length_chain_sound in He as [-> Hv]. right. by right.
Qed.

Lemma branch_errors_sound isEmail (op : operation) (b : body) (e : verror) :
  e ∈ validationResult (branch_chains isEmail op) b →
  branch_violation isEmail op b (path e).
Proof.
  intros He. apply validationResult_elem in He as (c & Hc & He).
  assert (Hcs : c ∈ Chain "name"
                      (match op with Create => required
                                   | Update => optional false end)
                      [ (notEmpty,
                         match op with
                         | Create => "Branch name is required"
                         | Update => "Branch name cannot be empty" end);
                        (isLength_max 100,
                         "Branch name cannot exceed 100 characters") ]
                    :: optional_branch_chains isEmail)
    by (by destruct op).
  clear Hc. unfold optional_branch_chains in Hcs. set_unfold in Hcs.
  destruct Hcs as [->|[->|[->|[->|[->|[]]]]]].
  - apply name_chain_sound in He as [-> Hv]. by left.
  - apply length_chain_sound in He as [-> Hv]. right. by left.
  - apply length_chain_sound in He as [-> Hv]. do 2 right. by left.
  - apply length_chain_sound in He as [-> Hv]. do 3 right. by left.
  - apply email_chain_sound in He as [-> Hv]. by do 4 right.
Qed.

(** X1. Every entry of a validation failure names a field whose constraint
    the request violates: a create or update that meets every field
    constraint is never answered with a validation failure, on either
    registry. *)
Theorem validation_errors_name_violations isEmail toLowerCase (q : request) (w : world)
    (errors : list verror) :
  ValidationFailed errors (serve isEmail toLowerCase q w).1 →
  (∀ e, e ∈ errors → violation isEmail q (path e)) ∧
  (∃ f, violation isEmail q f).
Proof.
  intros [Hne Hrep].
  assert (Hall : ∀ e, e ∈ errors → violation isEmail q (path e)).
  { revert Hrep.
    destruct q as [| | |b|id b| | | | | |b|id b| |]; simpl;
      unfold route_categories, route_branches;
      rewrite ?get_category_run, ?post_categories_run, ?put_category_run,
        ?delete_category_run, ?patch_category_toggle_status_run,
        ?get_branch_run, ?post_branches_run, ?put_branch_run,
        ?delete_branch_run, ?patch_branch_toggle_status_run;
      unfold get_categories, get_categories_all, get_branches,
        get_branches_all;
      unfold_monad;
      repeat case_match; simplify_eq; simpl;
      intros [Hr|Hr]; simplify_eq; intros e He.
    - by apply (category_errors_sound Create).
    - by apply (category_errors_sound Update).
    - by apply (branch_errors_sound isEmail Create).
    - by apply (branch_errors_sound isEmail Update). }
  split; [done|].
  destruct errors as [|e errors]; [done|].
  exists (path e). apply Hall. left.
Qed.

(** ** What a request that passes validation carries *)

Lemma slug_dec (s : string) : slug s ∨ ¬ slug s.
Proof.
  destruct (check matches_slug s) eqn:Hck.
  - left. by apply check_matches_slug.
  - right. intros Hs. apply check_matches_slug in Hs. congruence.
Qed.

Lemma within_or_too_long (max : nat) (v : jsval) :
  within max v ∨ too_long max v.
Proof.
  destruct v as [s|].
  - destruct (decide (String.length s ≤ max)%nat) as [Hle|Hgt].
    + left. intros s' Hs. by simplify_eq.
    + right. exists s. split; [done|]. lia.
  - left. by intros s Hs.
Qed.

Lemma category_valid_fields (op : operation) (b : body) :
  validationResult (category_chains op) b = [] →
  (∀ n, b !! "name" = Some n → n ≠ "" ∧ (String.length n ≤ 100)%nat) ∧
  (∀ v, b !! "value" = Some v → slug v) ∧
  within 500 (b !! "description") ∧
  (op = Create → is_Some (b !! "name") ∧ is_Some (b !! "value")).
Proof.
  intros Hok.
  assert (Hno : ∀ f, ¬ category_violation op b f).
  { intros f Hv. destruct (category_violation_reported op b f Hv)
      as (e & He & _). rewrite Hok in He. by apply elem_of_nil in He. }
  split; [|split; [|split]].
  - intros n Hn. split.
    + intros ->. apply (Hno "name"). left. split; [done|].
      rewrite Hn. by left.
    + destruct (decide (String.length n ≤ 100)%nat) as [|Hgt]; [done|].
      exfalso. apply (Hno "name"). left. split; [done|].
      rewrite Hn. right. lia.
  - intros v Hv. destruct (slug_dec v) as [|Hns]; [done|].
    exfalso. apply (Hno "value"). right. left. split; [done|]. by rewrite Hv.
  - destruct (within_or_too_long 500 (b !! "description")) as [|Hl]; [done|].
    exfalso. apply (Hno "description"). right. right. by split.
  - intros ->. split.
    + destruct (b !! "name") eqn:Hb; [done|].
      exfalso. apply (Hno "name"). left. split; [done|]. by rewrite Hb.
    + destruct (b !! "value") eqn:Hb; [done|].
      exfalso. apply (Hno "value"). right. left. split; [done|].
      by rewrite Hb.
Qed.

Lemma branch_valid_fields isEmail (op : operation) (b : body) :
  validationResult (branch_chains isEmail op) b = [] →
  (∀ n, b !! "name" = Some n → n ≠ "" ∧ (String.length n ≤ 100)%nat) ∧
  within 500 (b !! "description") ∧
  within 200 (b !! "address") ∧
  within 20 (b !! "phone") ∧
  (∀ e, b !! "email" = Some e → e = "" ∨ isEmail e = true) ∧
  (op = Create → is_Some (b !! "name")).
Proof.
  intros Hok.
  assert (Hno : ∀ f, ¬ branch_violation isEmail op b f).
  { intros f Hv. destruct (branch_violation_reported isEmail op b f Hv)
      as (e & He & _). rewrite Hok in He. by apply elem_of_nil in He. }
  split; [|split; [|split; [|split; [|split]]]].
  - intros n Hn. split.
    + intros ->. apply (Hno "name"). left. split; [done|].
      rewrite Hn. by left.
    + destruct (decide (String.length n ≤ 100)%nat) as [|Hgt]; [done|].
      exfalso. apply (Hno "name"). left. split; [done|].
      rewrite Hn. right. lia.
  - destruct (within_or_too_long 500 (b !! "description")) as [|Hl]; [done|].
    exfalso. apply (Hno "description"). right. left. by split.
  - destruct (within_or_too_long 200 (b !! "address")) as [|Hl]; [done|].
    exfalso. apply (Hno "address"). do 2 right. left. by split.
  - destruct (within_or_too_long 20 (b !! "phone")) as [|Hl]; [done|].
    exfalso. apply (Hno "phone"). do 3 right. left. by split.
  - intros e He. destruct (decide (e = "")) as [|Hne]; [by left|].
    destruct (isEmail e) eqn:Hem; [by right|].
    exfalso. apply (Hno "email"). do 4 right. split; [done|]. by exists e.
  - intros ->. destruct (b !! "name") eqn:Hb; [done|].
    exfalso. apply (Hno "name"). left. split; [done|]. by rewrite Hb.
Qed.

Lemma slug_nonempty (s : string) : slug s → s ≠ "".
Proof. by intros [Hne _]. Qed.

Lemma truthy_Some (s : string) : s ≠ "" → truthy (Some s) = true.
Proof. intros Hne. simpl. by rewrite bool_decide_eq_false_2. Qed.

(** ** Outcome of a create that passes validation *)

Lemma some_false_iff {A} (p : A → bool) (l : list A) :
  some p l = false ↔ ∀ x, x ∈ l → p x = false.
Proof.
  split.
  - intros Hs x Hx. destruct (p x) eqn:Hp; [|done].
    assert (some p l = true) by (apply some_true_iff; eauto). congruence.
  - intros Hall. destruct (some p l) eqn:Hs; [|done].
    apply some_true_iff in Hs as (x & Hx & Hp). rewrite Hall in Hp; done.
Qed.

(** X2. A category create that passes validation is answered with the
    conflict message exactly when a stored record carries the value. When
    none does, it is answered 201 and appends the returned record: id the
    decimal form of the first clock reading, name and label the supplied
    name, the supplied value, an absent description when none or the empty
    text was supplied, active, and the next two readings as [createdAt] and
    [updatedAt]; the branches are untouched. *)
Theorem category_create_outcome (b : body) (w : world) :
  validationResult post_categories_chains b = [] →
  ∃ n v, b !! "name" = Some n ∧ b !! "value" = Some v ∧
    ((run_handler (post_categories b) w).1
     = (400, Message "Category value already exists")
     ↔ ∃ old, old ∈ categories w ∧ Category.value old = v) ∧
    ((∀ old, old ∈ categories w → Category.value old ≠ v) →
     let c := Category.mk (Number_toString (clock w (reads w))) n v n
                (or_undefined (b !! "description")) true
                (clock w (S (reads w))) (clock w (S (S (reads w)))) in
     run_handler (post_categories b) w
     = ((201, MessageWith "Category created successfully" c),
        World (push (categories w) c) (branches w) (clock w)
              (S (S (S (reads w)))))).
Proof.
  intros Hok.
  destruct (category_valid_fields Create b Hok) as (_ & _ & _ & Hreq).
  destruct (Hreq eq_refl) as [[n Hn] [v Hv]].
  exists n, v. split; [done|]. split; [done|].
  rewrite post_categories_run. cbv zeta.
  rewrite Hok, bool_decide_eq_true_2 by done. rewrite Hv. split.
  - destruct (some _ _) eqn:Hs; simpl.
    + split; [|done]. intros _.
      apply some_true_iff in Hs as (old & Hold & Heq).
      apply bool_decide_eq_true in Heq. exists old. split; [done|]. congruence.
    + split; [done|]. intros (old & Hold & Heq).
      rewrite some_false_iff in Hs. specialize (Hs old Hold).
      apply bool_decide_eq_false in Hs. congruence.
  - intros Hfresh.
    assert (Hs : some (λ cat, bool_decide (Some (Category.value cat) = Some v))
                   (categories w) = false).
    { apply some_false_iff. intros old Hold. apply bool_decide_eq_false.
      intros Heq. apply (Hfresh old Hold). congruence. }
    rewrite Hs. unfold new_category. rewrite Hn, Hv. done.
Qed.

(** X3. A branch create that passes validation is answered with the conflict
    message exactly when a stored branch has the same name up to letter
    case. When none has, it is answered 201 and appends the returned record:
    id the decimal form of the first clock reading, the supplied name, each
    of description, address, phone and email absent when not supplied or
    supplied empty, active, and the next two readings as [createdAt] and
    [updatedAt]; the categories are untouched. *)
Theorem branch_create_outcome isEmail toLowerCase (b : body) (w : world) :
  validationResult (post_branches_chains isEmail) b = [] →
  ∃ n, b !! "name" = Some n ∧
    ((run_handler (post_branches isEmail toLowerCase b) w).1
     = (400, Message "Branch name already exists")
     ↔ ∃ old, old ∈ branches w ∧ equal_ignoring_case toLowerCase (Branch.name old) n) ∧
    ((∀ old, old ∈ branches w → ¬ equal_ignoring_case toLowerCase (Branch.name old) n) →
     let c := Branch.mk (Number_toString (clock w (reads w))) n
                (or_undefined (b !! "description"))
                (or_undefined (b !! "address"))
                (or_undefined (b !! "phone"))
                (or_undefined (b !! "email")) true
                (clock w (S (reads w))) (clock w (S (S (reads w)))) in
     run_handler (post_branches isEmail toLowerCase b) w
     = ((201, MessageWith "Branch created successfully" c),
        World (categories w) (push (branches w) c) (clock w)
              (S (S (S (reads w)))))).
Proof.
  intros Hok.
  destruct (branch_valid_fields isEmail Create b Hok)
    as (_ & _ & _ & _ & _ & Hreq).
  destruct (Hreq eq_refl) as [n Hn].
  exists n. split; [done|].
  rewrite post_branches_run. cbv zeta.
  rewrite Hok, bool_decide_eq_true_2 by done.
  replace (text (b !! "name")) with n by (by rewrite Hn). split.
  - destruct (some _ _) eqn:Hs; simpl.
    + split; [|done]. intros _.
      apply some_true_iff in Hs as (old & Hold & Heq).
      apply bool_decide_eq_true in Heq. exists old. split; [done|].
      by apply equal_ignoring_case_toLowerCase.
    + split; [done|]. intros (old & Hold & Heq).
      rewrite some_false_iff in Hs. specialize (Hs old Hold).
      apply bool_decide_eq_false in Hs.
      by apply equal_ignoring_case_toLowerCase in Heq.
  - intros Hfresh.
    assert (Hs : some (λ branch, bool_decide (toLowerCase (Branch.name branch)
                                              = toLowerCase n))
                   (branches w) = false).
    { apply some_false_iff. intros old Hold. apply bool_decide_eq_false.
      intros Heq. apply (Hfresh old Hold).
      by apply equal_ignoring_case_toLowerCase. }
    rewrite Hs. unfold new_branch. rewrite Hn. done.
Qed.

(** X4. A create that has just succeeded cannot be repeated: sending the
    same category body again is answered with the conflict message and
    changes nothing; so is any branch create that passes validation and
    whose name equals the created branch's name up to letter case. *)
Theorem create_twice_conflicts isEmail toLowerCase (w : world) :
  (∀ (b : body) (m : string) (c : Category.t),
     (run_handler (post_categories b) w).1 = (201, MessageWith m c) →
     let w1 := (run_handler (post_categories b) w).2 in
     run_handler (post_categories b) w1
     = ((400, Message "Category value already exists"), w1)) ∧
  (∀ (b b2 : body) (m n2 : string) (c : Branch.t),
     (run_handler (post_branches isEmail toLowerCase b) w).1 = (201, MessageWith m c) →
     validationResult (post_branches_chains isEmail) b2 = [] →
     b2 !! "name" = Some n2 →
     equal_ignoring_case toLowerCase (Branch.name c) n2 →
     let w1 := (run_handler (post_branches isEmail toLowerCase b) w).2 in
     run_handler (post_branches isEmail toLowerCase b2) w1
     = ((400, Message "Branch name already exists"), w1)).
Proof.
  split.
  - intros b m c Hr w1.
    pose proof (post_categories_run b w) as Hrun. cbv zeta in Hrun.
    case_bool_decide as Hok; [|by rewrite Hrun in Hr].
    destruct (some _ (categories w)); [by rewrite Hrun in Hr|].
    destruct (category_valid_fields Create b Hok) as (_ & _ & _ & Hreq).
    destruct (Hreq eq_refl) as [_ [v Hv]].
    rewrite post_categories_run. cbv zeta.
    rewrite bool_decide_eq_true_2 by done.
    assert (Hs : some (λ cat, bool_decide (Some (Category.value cat)
                                           = b !! "value"))
                   (categories w1) = true).
    { apply some_true_iff. eexists. split.
      - subst w1. rewrite Hrun. simpl. apply elem_of_app. right. left.
      - apply bool_decide_eq_true. unfold new_category. simpl.
        by rewrite Hv. }
    by rewrite Hs.
  - intros b b2 m n2 c Hr Hok2 Hn2 Heq w1.
    pose proof (post_branches_run isEmail toLowerCase b w) as Hrun. cbv zeta in Hrun.
    case_bool_decide as Hok; [|by rewrite Hrun in Hr].
    destruct (some _ (branches w)); [by rewrite Hrun in Hr|].
    rewrite Hrun in Hr. simpl in Hr. simplify_eq.
    rewrite post_branches_run. cbv zeta.
    rewrite Hok2, bool_decide_eq_true_2 by done.
    assert (Hs : some (λ branch, bool_decide (toLowerCase (Branch.name branch)
                                    = toLowerCase (text (b2 !! "name"))))
                   (branches w1) = true).
    { apply some_true_iff. eexists. split.
      - subst w1. rewrite Hrun. simpl. apply elem_of_app. right. left.
      - apply bool_decide_eq_true. rewrite Hn2. simpl text.
        by apply equal_ignoring_case_toLowerCase. }
    by rewrite Hs.
Qed.

(** ** Update of an existing record *)

(** X5. The uniqueness check of an update leaves the updated id out. For an
    update that passes validation, addresses an existing id and supplies a
    value (category) or a name (branch), the answer is the conflict message
    exactly when a stored record with a different id carries that value, or
    that name up to letter case; a conflict changes nothing. Records stored
    under the updated id never count, so a record can be sent its own value
    or name again. *)
Theorem update_conflict_excludes_self isEmail toLowerCase (id : string) (b : body)
    (w : world) :
  (∀ v, validationResult put_category_chains b = [] →
     is_Some (find (category_with_id id) (categories w)) →
     b !! "value" = Some v →
     ((run_handler (put_category id b) w)
      = ((400, Message "Category value already exists"), w)
      ↔ ∃ c, c ∈ categories w ∧ Category.value c = v ∧ Category._id c ≠ id) ∧
     ((run_handler (put_category id b) w).1
      ≠ (400, Message "Category value already exists")
      → ∃ m u, (run_handler (put_category id b) w).1 = (200, MessageWith m u)
               ∧ Category.value u = v)) ∧
  (∀ n, validationResult (put_branch_chains isEmail) b = [] →
     is_Some (find (branch_with_id id) (branches w)) →
     b !! "name" = Some n →
     ((run_handler (put_branch isEmail toLowerCase id b) w)
      = ((400, Message "Branch name already exists"), w)
      ↔ ∃ c, c ∈ branches w ∧ equal_ignoring_case toLowerCase (Branch.name c) n
             ∧ Branch._id c ≠ id) ∧
     ((run_handler (put_branch isEmail toLowerCase id b) w).1
      ≠ (400, Message "Branch name already exists")
      → ∃ m u, (run_handler (put_branch isEmail toLowerCase id b) w).1
               = (200, MessageWith m u)
               ∧ Branch.name u = n)).
Proof.
  split.
  - intros v Hok [old Hfind] Hv.
    destruct (find_Some_findIndex _ _ _ Hfind) as (i & Hi & Hold).
    destruct (category_valid_fields Update b Hok) as (_ & Hslug & _).
    pose proof (truthy_Some v (slug_nonempty v (Hslug v Hv))) as Htr.
    rewrite put_category_run. cbv zeta.
    rewrite Hok, bool_decide_eq_true_2, Hi, Hold, Hv, Htr by done.
    rewrite andb_true_l.
    destruct (some _ _) eqn:Hs; simpl.
    + split; [split; [|done]|done]. intros _.
      apply some_true_iff in Hs as (c & Hc & Hp).
      apply andb_true_iff in Hp as [Hp1 Hp2].
      apply bool_decide_eq_true in Hp1. apply negb_true_iff in Hp2.
      apply bool_decide_eq_false in Hp2.
      exists c. repeat split; [done|congruence|done].
    + split.
      * split; [done|]. intros (c & Hc & Hcv & Hcid).
        rewrite some_false_iff in Hs. specialize (Hs c Hc).
        apply andb_false_iff in Hs as [Hs|Hs].
        -- apply bool_decide_eq_false in Hs. congruence.
        -- apply negb_false_iff in Hs. by apply bool_decide_eq_true in Hs.
      * intros _. eexists _, _. split; [reflexivity|].
        unfold merge_category. rewrite Htr.
        by destruct (truthy (b !! "name")), (b !! "description").
  - intros n Hok [old Hfind] Hn.
    destruct (find_Some_findIndex _ _ _ Hfind) as (i & Hi & Hold).
    destruct (branch_valid_fields isEmail Update b Hok) as (Hname & _).
    destruct (Hname n Hn) as [Hne _].
    pose proof (truthy_Some n Hne) as Htr.
    rewrite put_branch_run. cbv zeta.
    rewrite Hok, bool_decide_eq_true_2, Hi, Hold, Hn, Htr by done.
    rewrite andb_true_l. simpl text.
    destruct (some _ _) eqn:Hs; simpl.
    + split; [split; [|done]|done]. intros _.
      apply some_true_iff in Hs as (c & Hc & Hp).
      apply andb_true_iff in Hp as [Hp1 Hp2].
      apply bool_decide_eq_true in Hp1. apply negb_true_iff in Hp2.
      apply bool_decide_eq_false in Hp2.
      exists c. repeat split; [done| |done].
      by apply equal_ignoring_case_toLowerCase.
    + split.
      * split; [done|]. intros (c & Hc & Hcn & Hcid).
        rewrite some_false_iff in Hs. specialize (Hs c Hc).
        apply andb_false_iff in Hs as [Hs|Hs].
        -- apply bool_decide_eq_false in Hs.
           by apply equal_ignoring_case_toLowerCase in Hcn.
        -- apply negb_false_iff in Hs. by apply bool_decide_eq_true in Hs.
      * intros _. eexists _, _. split; [reflexivity|].
        unfold merge_branch. rewrite Htr.
        by destruct (b !! "description"), (b !! "address"), (b !! "phone"),
          (b !! "email").
Qed.


(** ** Requests on an id that no record carries *)

(** X7. When no record of a registry carries [id], fetching it, toggling it
    and updating it with a body that passes validation are each answered
    404, and the state stays as it was; an update whose body fails
    validation is answered with the validation failure instead, because the
    body is checked before the id is looked up. *)
Theorem absent_id_not_found isEmail toLowerCase (id : string) (w : world) :
  (find (category_with_id id) (categories w) = None →
   run_handler (get_category id) w
   = ((404, Message "Category not found"), w) ∧
   run_handler (patch_category_toggle_status id) w
   = ((404, Message "Category not found"), w) ∧
   ∀ b, run_handler (put_category id b) w
        = (if bool_decide (validationResult put_category_chains b = [])
           then (404, Message "Category not found")
           else (400, MessageErrors "Validation failed"
                        (validationResult put_category_chains b)), w)) ∧
  (find (branch_with_id id) (branches w) = None →
   run_handler (get_branch id) w
   = ((404, Message "Branch not found"), w) ∧
   run_handler (patch_branch_toggle_status id) w
   = ((404, Message "Branch not found"), w) ∧
   ∀ b, run_handler (put_branch isEmail toLowerCase id b) w
        = (if bool_decide (validationResult (put_branch_chains isEmail) b = [])
           then (404, Message "Branch not found")
           else (400, MessageErrors "Validation failed"
                        (validationResult (put_branch_chains isEmail) b)), w)).
Proof.
  split; intros Hnone.
  - assert (Hi : findIndex (category_with_id id) (categories w) = None).
    { destruct (findIndex _ _) as [i|] eqn:Hi; [|done].
      destruct (findIndex_Some _ _ _ Hi) as (x & _ & _ & Hf & _).
      congruence. }
    rewrite get_category_run, patch_category_toggle_status_run, Hnone, Hi.
    repeat split. intros b. rewrite put_category_run, Hi. cbv zeta.
    by case_bool_decide.
  - assert (Hi : findIndex (branch_with_id id) (branches w) = None).
    { destruct (findIndex _ _) as [i|] eqn:Hi; [|done].
      destruct (findIndex_Some _ _ _ Hi) as (x & _ & _ & Hf & _).
      congruence. }
    rewrite get_branch_run, patch_branch_toggle_status_run, Hnone, Hi.
    repeat split. intros b. rewrite put_branch_run, Hi. cbv zeta.
    by case_bool_decide.
Qed.

(** ** What requests leave alone *)

Ltac run_routes :=
  simpl; unfold route_categories, route_branches;
  rewrite ?get_category_run, ?post_categories_run, ?put_category_run,
    ?delete_category_run, ?patch_category_toggle_status_run,
    ?get_branch_run, ?post_branches_run, ?put_branch_run,
    ?delete_branch_run, ?patch_branch_toggle_status_run;
  unfold get_categories, get_categories_all, get_branches, get_branches_all;
  unfold_monad.

(** X8. The two registries are independent and reads are pure: no
    categories request ever changes the branches, no branches request ever
    changes the categories, and the listing and fetching routes leave the
    whole state, clock readings included, as it was. *)
Theorem registries_independent isEmail toLowerCase (q : request) (w : world) :
  (category_request q → branches (serve isEmail toLowerCase q w).2 = branches w) ∧
  (branch_request q → categories (serve isEmail toLowerCase q w).2 = categories w) ∧
  (read_only q → (serve isEmail toLowerCase q w).2 = w).
Proof.
  destruct q; run_routes; repeat case_match; simplify_eq; simpl;
    by repeat split.
Qed.

Lemma fmap_insert_same {A B} (f : A → B) (l : list A) (i : nat) (x y : A) :
  l !! i = Some x → f y = f x → f <$> <[i := y]> l = f <$> l.
Proof.
  intros Hx Hf. rewrite list_fmap_insert, Hf.
  apply list_insert_id. by rewrite list_lookup_fmap, Hx.
Qed.

(** X9. Ids and creation times are fixed for life, and only a successful
    create or delete changes how many records there are. A categories create
    answered 201 appends exactly one (id, createdAt) pair to the sequence of
    pairs of the registry; a categories delete answered 200 removes exactly
    one pair; every other request, and every create or delete answered
    otherwise, leaves the sequence of pairs and the number of records as
    they were. The same holds for the branches. *)
Theorem identities_fixed isEmail toLowerCase (q : request) (w : world) :
  let w' := (serve isEmail toLowerCase q w).2 in
  let status := status_of (serve isEmail toLowerCase q w).1 in
  ((creates_category q ∧ status = 201 →
    ∃ x, category_identity <$> categories w'
         = ((category_identity <$> categories w) ++ [x])%list ∧
         length (categories w') = S (length (categories w))) ∧
   (deletes_category q ∧ status = 200 →
    ∃ i, (i < length (categories w))%nat ∧
         category_identity <$> categories w'
         = delete i (category_identity <$> categories w) ∧
         S (length (categories w')) = length (categories w)) ∧
   (¬ (creates_category q ∧ status = 201) →
    ¬ (deletes_category q ∧ status = 200) →
    category_identity <$> categories w' = category_identity <$> categories w ∧
    length (categories w') = length (categories w))) ∧
  ((creates_branch q ∧ status = 201 →
    ∃ x, branch_identity <$> branches w'
         = ((branch_identity <$> branches w) ++ [x])%list ∧
         length (branches w') = S (length (branches w))) ∧
   (deletes_branch q ∧ status = 200 →
    ∃ i, (i < length (branches w))%nat ∧
         branch_identity <$> branches w'
         = delete i (branch_identity <$> branches w) ∧
         S (length (branches w')) = length (branches w)) ∧
   (¬ (creates_branch q ∧ status = 201) →
    ¬ (deletes_branch q ∧ status = 200) →
    branch_identity <$> branches w' = branch_identity <$> branches w ∧
    length (branches w') = length (branches w))).
Proof.
  intros w' status. subst w' status.
  destruct q as [| |id|b|id b|id|id| | |id|b|id b|id|id]; run_routes;
    repeat case_match; simplify_eq; simpl;
    (split; (split; [|split]));
    try (by (intros [Hq Hst]; (done || lia)));
    try (intros Hnc Hnd; first [ done | exfalso; apply Hnc; by split
                               | exfalso; apply Hnd; by split ]);
    repeat intros _;
    lazymatch goal with
    | |- ∃ x, _ <$> (_ ++ [_])%list = _ ∧ _ =>
        eexists; rewrite fmap_app, length_app; simpl; split; [done|lia]
    | Hi : findIndex _ ?l = Some ?n |- ∃ i, _ ∧ _ <$> delete ?n ?l = _ ∧ _ =>
        exists n; apply findIndex_lookup, lookup_lt_is_Some in Hi;
        split; [done|]; rewrite list_fmap_delete; split; [done|];
        rewrite length_delete by (by apply lookup_lt_is_Some); lia
    | Hl : ?l !! ?n = Some ?t |- _ <$> <[?n := _]> ?l = _ ∧ _ =>
        split; [|by rewrite length_insert];
        apply (fmap_insert_same _ _ _ t); [done|];
        unfold merge_category, merge_branch, toggled_category,
          toggled_branch;
        repeat case_match; done
    end.
Qed.

(** ** Listings after a write *)

Lemma count_true_insert {A} (p : A → bool) (l : list A) (i : nat) (x y : A) :
  l !! i = Some x →
  count_true p (<[i := y]> l) + (if p x then 1 else 0)
  = count_true p l + (if p y then 1 else 0).
Proof.
  revert i. induction l as [|a l IH]; intros [|i] Hx; simpl in *; try done.
  - injection Hx as ->. lia.
  - specialize (IH i Hx). lia.
Qed.

Lemma filter_app_one {A} (p : A → bool) (l : list A) (x : A) :
  List.filter p (l ++ [x])
  = (List.filter p l ++ (if p x then [x] else []))%list.
Proof. rewrite List.filter_app. simpl. by destruct (p x). Qed.

(** X10. A toggle shows in the default listing at once: toggling an active
    record makes the [total] of the active listing drop by one, toggling an
    inactive record makes it grow by one, and the full listing keeps its
    [total]. *)
Theorem toggle_moves_active_total (id : string) (w : world) :
  (∀ c, find (category_with_id id) (categories w) = Some c →
     let w' := (run_handler (patch_category_toggle_status id) w).2 in
     ∃ items items' all',
       (run_handler get_categories w).1 = (200, Listing items (length items)) ∧
       (run_handler get_categories w').1
       = (200, Listing items' (length items')) ∧
       (run_handler get_categories_all w').1
       = (200, Listing all' (length (categories w))) ∧
       (if Category.isActive c
        then S (length items') = length items
        else length items' = S (length items))) ∧
  (∀ b, find (branch_with_id id) (branches w) = Some b →
     let w' := (run_handler (patch_branch_toggle_status id) w).2 in
     ∃ items items' all',
       (run_handler get_branches w).1 = (200, Listing items (length items)) ∧
       (run_handler get_branches w').1
       = (200, Listing items' (length items')) ∧
       (run_handler get_branches_all w').1
       = (200, Listing all' (length (branches w))) ∧
       (if Branch.isActive b
        then S (length items') = length items
        else length items' = S (length items))).
Proof.
  split.
  - intros c Hfind w'.
    destruct (find_Some_findIndex _ _ _ Hfind) as (i & Hi & Hc).
    subst w'. rewrite patch_category_toggle_status_run, Hi, Hc.
    unfold get_categories, get_categories_all. unfold_monad.
    eexists _, _, _. split; [done|]. split; [done|].
    rewrite length_insert. split; [done|].
    rewrite !count_true_filter.
    pose proof (count_true_insert Category.isActive (categories w) i c
                  (toggled_category (clock w (reads w)) c) Hc) as Hcount.
    simpl in Hcount. destruct (Category.isActive c); simpl in Hcount; lia.
  - intros b Hfind w'.
    destruct (find_Some_findIndex _ _ _ Hfind) as (i & Hi & Hc).
    subst w'. rewrite patch_branch_toggle_status_run, Hi, Hc.
    unfold get_branches, get_branches_all. unfold_monad.
    eexists _, _, _. split; [done|]. split; [done|].
    rewrite length_insert. split; [done|].
    rewrite !count_true_filter.
    pose proof (count_true_insert Branch.isActive (branches w) i b
                  (toggled_branch (clock w (reads w)) b) Hc) as Hcount.
    simpl in Hcount. destruct (Branch.isActive b); simpl in Hcount; lia.
Qed.

Lemma find_app_fresh {A} (p : A → bool) (l : list A) (x : A) :
  find p l = None → p x = true → find p (l ++ [x])%list = Some x.
Proof.
  unfold find. induction l as [|a l IH]; simpl; intros Hn Hx.
  - by rewrite Hx.
  - destruct (p a); [done|]. by apply IH.
Qed.

Lemma find_app_old {A} (p : A → bool) (l : list A) (x y : A) :
  find p l = Some y → find p (l ++ [x])%list = Some y.
Proof.
  unfold find. induction l as [|a l IH]; simpl; intros Hy; [done|].
  destruct (p a); [done|]. by apply IH.
Qed.

(** X11. A created record can be read back. After a create answered 201
    with record [c], the full listing is the old one followed by [c] with
    [total] one higher, and so is the active listing, since [c] is active.
    Fetching the id of [c] returns [c] when no stored record carried that id
    before; when one did, the fetch returns that older record. *)
Theorem created_record_is_listed isEmail toLowerCase (w : world) :
  (∀ (b : body) (m : string) (c : Category.t),
     (run_handler (post_categories b) w).1 = (201, MessageWith m c) →
     let w' := (run_handler (post_categories b) w).2 in
     (run_handler get_categories_all w').1
     = (200, Listing (push (categories w) c) (S (length (categories w)))) ∧
     (run_handler get_categories w').1
     = (200, Listing (push (List.filter Category.isActive (categories w)) c)
               (S (length (List.filter Category.isActive (categories w))))) ∧
     (find (category_with_id (Category._id c)) (categories w) = None →
      (run_handler (get_category (Category._id c)) w').1 = (200, Single c)) ∧
     (∀ old, find (category_with_id (Category._id c)) (categories w)
             = Some old →
      (run_handler (get_category (Category._id c)) w').1
      = (200, Single old))) ∧
  (∀ (b : body) (m : string) (c : Branch.t),
     (run_handler (post_branches isEmail toLowerCase b) w).1 = (201, MessageWith m c) →
     let w' := (run_handler (post_branches isEmail toLowerCase b) w).2 in
     (run_handler get_branches_all w').1
     = (200, Listing (push (branches w) c) (S (length (branches w)))) ∧
     (run_handler get_branches w').1
     = (200, Listing (push (List.filter Branch.isActive (branches w)) c)
               (S (length (List.filter Branch.isActive (branches w))))) ∧
     (find (branch_with_id (Branch._id c)) (branches w) = None →
      (run_handler (get_branch (Branch._id c)) w').1 = (200, Single c)) ∧
     (∀ old, find (branch_with_id (Branch._id c)) (branches w) = Some old →
      (run_handler (get_branch (Branch._id c)) w').1 = (200, Single old))).
Proof.
  split.
  - intros b m c Hr w'.
    pose proof (post_categories_run b w) as Hrun. cbv zeta in Hrun.
    case_bool_decide as Hok; [|by rewrite Hrun in Hr].
    destruct (some _ (categories w)); [by rewrite Hrun in Hr|].
    rewrite Hrun in Hr. simpl in Hr. simplify_eq.
    subst w'. rewrite Hrun. simpl.
    unfold get_categories, get_categories_all. rewrite get_category_run.
    unfold_monad. unfold push.
    rewrite filter_app_one, !length_app. simpl.
    repeat split.
    + f_equal. f_equal. lia.
    + f_equal. f_equal. lia.
    + intros Hnone. erewrite find_app_fresh; [done|done|].
      unfold category_with_id. by apply bool_decide_eq_true.
    + intros old Hold. by erewrite find_app_old.
  - intros b m c Hr w'.
    pose proof (post_branches_run isEmail toLowerCase b w) as Hrun. cbv zeta in Hrun.
    case_bool_decide as Hok; [|by rewrite Hrun in Hr].
    destruct (some _ (branches w)); [by rewrite Hrun in Hr|].
    rewrite Hrun in Hr. simpl in Hr. simplify_eq.
    subst w'. rewrite Hrun. simpl.
    unfold get_branches, get_branches_all. rewrite get_branch_run.
    unfold_monad. unfold push.
    rewrite filter_app_one, !length_app. simpl.
    repeat split.
    + f_equal. f_equal. lia.
    + f_equal. f_equal. lia.
    + intros Hnone. erewrite find_app_fresh; [done|done|].
      unfold branch_with_id. by apply bool_decide_eq_true.
    + intros old Hold. by erewrite find_app_old.
Qed.

(** ** Stored records stay well formed *)

Lemma within_or_undefined (max : nat) (v : jsval) :
  within max v → within max (or_undefined v).
Proof.
  intros Hv s Hs. apply Hv. unfold or_undefined in Hs.
  by destruct (truthy v).
Qed.

Lemma new_category_well_formed (b : body) (now created updated : N) :
  validationResult post_categories_chains b = [] →
  well_formed_category (new_category b now created updated).
Proof.
  intros Hok.
  destruct (category_valid_fields Create b Hok) as (Hname & Hslug & Hd & Hreq).
  destruct (Hreq eq_refl) as [[n Hn] [v Hv]].
  destruct (Hname n Hn) as [Hne Hlen].
  unfold well_formed_category, new_category. rewrite Hn, Hv. simpl.
  repeat split; try done.
  - by apply (Hslug v).
  - apply (Hslug v Hv).
  - by apply within_or_undefined.
Qed.

Lemma merge_category_well_formed (b : body) (old : Category.t) (now : N) :
  validationResult put_category_chains b = [] →
  well_formed_category old →
  well_formed_category
    (Category.set_updatedAt now
       (merge_category old (b !! "name") (b !! "value") (b !! "description"))).
Proof.
  intros Hok (Hne & Hlen & Hslug & Hlabel & Hd).
  destruct (category_valid_fields Update b Hok) as (Hname & Hvalue & Hdesc & _).
  unfold well_formed_category, merge_category.
  destruct (b !! "name") as [n|] eqn:Hn; simpl.
  - destruct (Hname n eq_refl) as [Hne' Hlen'].
    rewrite bool_decide_eq_false_2 by done. simpl.
    destruct (b !! "value") as [v|] eqn:Hv; simpl.
    + pose proof (Hvalue v eq_refl) as Hs.
      rewrite bool_decide_eq_false_2 by (by apply slug_nonempty). simpl.
      destruct (b !! "description") as [d|]; simpl; repeat split; try done;
        apply Hs.
    + destruct (b !! "description") as [d|]; simpl; repeat split; try done;
        apply Hslug.
  - destruct (b !! "value") as [v|] eqn:Hv; simpl.
    + pose proof (Hvalue v eq_refl) as Hs.
      rewrite bool_decide_eq_false_2 by (by apply slug_nonempty). simpl.
      destruct (b !! "description") as [d|]; simpl; repeat split; try done;
        apply Hs.
    + destruct (b !! "description") as [d|]; simpl; repeat split; try done;
        apply Hslug.
Qed.

Lemma new_branch_well_formed isEmail (b : body) (now created updated : N) :
  validationResult (post_branches_chains isEmail) b = [] →
  well_formed_branch isEmail (new_branch b now created updated).
Proof.
  intros Hok.
  destruct (branch_valid_fields isEmail Create b Hok)
    as (Hname & Hd & Ha & Hp & He & Hreq).
  destruct (Hreq eq_refl) as [n Hn]. destruct (Hname n Hn) as [Hne Hlen].
  unfold well_formed_branch, new_branch. rewrite Hn. simpl.
  repeat split; try done; try (by apply within_or_undefined).
  intros e Hemail. apply He. unfold or_undefined in Hemail.
  by destruct (truthy (b !! "email")).
Qed.

Lemma merge_branch_well_formed isEmail (b : body) (old : Branch.t) (now : N) :
  validationResult (put_branch_chains isEmail) b = [] →
  well_formed_branch isEmail old →
  well_formed_branch isEmail
    (Branch.set_updatedAt now
       (merge_branch old (b !! "name") (b !! "description") (b !! "address")
          (b !! "phone") (b !! "email"))).
Proof.
  intros Hok (Hne & Hlen & Hd & Ha & Hp & He).
  destruct (branch_valid_fields isEmail Update b Hok)
    as (Hname & Hd' & Ha' & Hp' & He' & _).
  unfold well_formed_branch, merge_branch.
  assert (Hn : (∃ n, b !! "name" = Some n ∧ n ≠ "" ∧
                     (String.length n ≤ 100)%nat) ∨ b !! "name" = None).
  { destruct (b !! "name") as [n|]; [|by right].
    left. exists n. split; [done|]. by apply Hname. }
  destruct Hn as [(n & -> & Hne' & Hlen')| ->]; simpl;
    rewrite ?bool_decide_eq_false_2 by done; simpl;
    destruct (b !! "description") as [d|], (b !! "address") as [a|],
      (b !! "phone") as [p|], (b !! "email") as [e|]; simpl;
    repeat split; done.
Qed.

Lemma serve_well_formed isEmail toLowerCase (q : request) (w : world) :
  (Forall well_formed_category (categories w) →
   Forall well_formed_category (categories (serve isEmail toLowerCase q w).2)) ∧
  (Forall (well_formed_branch isEmail) (branches w) →
   Forall (well_formed_branch isEmail) (branches (serve isEmail toLowerCase q w).2)).
Proof.
  destruct q as [| |id|b|id b|id|id| | |id|b|id b|id|id]; run_routes;
    repeat case_match; simplify_eq; simpl; (split; [try done|try done]);
    intros Hall;
    lazymatch goal with
    | |- Forall _ (_ ++ [_]) =>
        apply Forall_app; split; [done|]; apply Forall_singleton;
        first [ apply new_category_well_formed
              | apply new_branch_well_formed ];
        by eapply bool_decide_eq_true_1
    | |- Forall _ (delete _ _) => by apply Forall_delete
    | Hl : ?l !! ?n = Some ?t |- Forall _ (<[?n := _]> ?l) =>
        apply Forall_insert; [done|];
        pose proof (Forall_lookup_1 _ _ _ _ Hall Hl) as Hwf;
        first [ apply merge_category_well_formed;
                [by eapply bool_decide_eq_true_1|done]
              | apply merge_branch_well_formed;
                [by eapply bool_decide_eq_true_1|done]
              | by destruct Hwf as (? & ? & ? & ? & ?)
              | by destruct Hwf as (? & ? & ? & ? & ? & ?) ]
    end.
Qed.

Lemma serve_all_well_formed isEmail toLowerCase (qs : list request) (w : world) :
  (Forall well_formed_category (categories w) →
   Forall well_formed_category (categories (serve_all isEmail toLowerCase qs w).2)) ∧
  (Forall (well_formed_branch isEmail) (branches w) →
   Forall (well_formed_branch isEmail)
          (branches (serve_all isEmail toLowerCase qs w).2)).
Proof.
  revert w. induction qs as [|q qs IH]; intros w; simpl; [done|].
  pose proof (serve_well_formed isEmail toLowerCase q w) as [Hc Hb].
  destruct (serve isEmail toLowerCase q w) as [r w1]. simpl in *.
  specialize (IH w1). destruct (serve_all isEmail toLowerCase qs w1) as [rs w2].
  simpl in *. destruct IH as [IHc IHb]. split; auto.
Qed.

Lemma seed_slug (s : string) : check matches_slug s = true → slug s.
Proof. apply check_matches_slug. Qed.

Lemma seed_within (max : nat) (s : string) :
  (String.length s <=? max)%nat = true → within max (Some s).
Proof. intros Hle s' Hs. simplify_eq. by apply Nat.leb_le. Qed.

(** X12. In every reachable state every stored category has a non-empty name
    of at most 100 characters, a value that is a non-empty text of lowercase
    letters, digits and hyphens, a label equal to its name, and a
    description, if any, of at most 500 characters. Provided the e-mail
    grammar accepts the two seeded addresses, every stored branch has a
    non-empty name of at most 100 characters, description, address and
    phone within 500, 200 and 20 characters, and an e-mail that is absent,
    empty or accepted by the grammar. *)
Theorem stored_records_well_formed isEmail toLowerCase (w : world) :
  reachable isEmail toLowerCase w →
  Forall well_formed_category (categories w) ∧
  (isEmail "main@restaurant.com" = true →
   isEmail "downtown@restaurant.com" = true →
   Forall (well_formed_branch isEmail) (branches w)).
Proof.
  intros (clk & qs & ->).
  pose proof (serve_all_well_formed isEmail toLowerCase qs (boot clk)) as [Hc Hb].
  split.
  - apply Hc. simpl.
    repeat (apply Forall_cons; split;
            [unfold well_formed_category; simpl;
             split; [done|]; split; [by apply Nat.leb_le|];
             split; [by apply seed_slug|]; split; [done|];
             by apply seed_within|]).
    apply Forall_nil_2.
  - intros Hm Hd. apply Hb. simpl.
    repeat (apply Forall_cons; split;
            [unfold well_formed_branch; simpl;
             split; [done|]; split; [by apply Nat.leb_le|];
             split; [by apply seed_within|]; split; [by apply seed_within|];
             split; [by apply seed_within|];
             intros e He; simplify_eq; by right|]).
    apply Forall_nil_2.
Qed.

(** ** Timestamps *)


Lemma stamped_update (w w' : world) (created updated : N) :
  clock w' = clock w → reads w' = S (reads w) →
  stamped w created updated → stamped w' created (clock w (reads w)).
Proof.
  intros Hc Hr (i & j & Hij & Hj & -> & ->). exists i, (reads w).
  rewrite Hc, Hr. repeat split; (done || lia).
Qed.






(** ** Uniqueness of ids, values and names *)

Lemma NoDup_fmap_insert {A B} (f : A → B) (l : list A) (i : nat) (u : A) :
  NoDup (f <$> l) →
  (∀ j y, j ≠ i → l !! j = Some y → f y ≠ f u) →
  NoDup (f <$> <[i := u]> l).
Proof.
  intros Hnd Hother. apply NoDup_alt. intros a b x Ha Hb.
  rewrite list_lookup_fmap in Ha, Hb.
  destruct (<[i:=u]> l !! a) as [ya|] eqn:Hya; [|done].
  destruct (<[i:=u]> l !! b) as [yb|] eqn:Hyb; [|done].
  simpl in Ha, Hb. injection Ha as <-. injection Hb as Hb.
  apply list_lookup_insert_Some in Hya as [(-> & -> & _)|[Hna Hya]];
    apply list_lookup_insert_Some in Hyb as [(-> & -> & _)|[Hnb Hyb]].
  - done.
  - exfalso. by apply (Hother b yb).
  - exfalso. by apply (Hother a ya).
  - eapply (proj1 (NoDup_alt _) Hnd a b (f ya)).
    + by rewrite list_lookup_fmap, Hya.
    + rewrite list_lookup_fmap, Hyb. simpl. by rewrite Hb.
Qed.

Lemma NoDup_fmap_other {A B} (g : A → B) (l : list A) (i j : nat) (x y : A) :
  NoDup (g <$> l) → l !! i = Some x → l !! j = Some y → j ≠ i → g y ≠ g x.
Proof.
  intros Hnd Hx Hy Hne Heq. apply Hne.
  eapply (proj1 (NoDup_alt _) Hnd j i (g y)).
  - by rewrite list_lookup_fmap, Hy.
  - rewrite list_lookup_fmap, Hx. simpl. by rewrite Heq.
Qed.

Lemma NoDup_fmap_delete {A B} (f : A → B) (l : list A) (i : nat) :
  NoDup (f <$> l) → NoDup (f <$> delete i l).
Proof.
  intros Hnd. rewrite list_fmap_delete.
  eapply sublist_NoDup; [exact Hnd|apply sublist_delete].
Qed.

Lemma NoDup_fmap_snoc {A B} (f : A → B) (l : list A) (x : A) :
  NoDup (f <$> l) → (∀ y, y ∈ l → f y ≠ f x) → NoDup (f <$> (l ++ [x])%list).
Proof.
  intros Hnd Hfresh. rewrite fmap_app. apply NoDup_app.
  split; [done|]. split; [|apply NoDup_singleton].
  intros z Hz Hin. apply list_elem_of_fmap in Hz as (y & -> & Hy).
  simpl in Hin. apply list_elem_of_singleton in Hin. by apply (Hfresh y).
Qed.

(** One request keeps category values pairwise distinct, and branch names
    pairwise distinct up to letter case, as long as the ids of the registry
    are pairwise distinct. *)
Lemma serve_keeps_unique isEmail toLowerCase (q : request) (w : world) :
  (NoDup (Category._id <$> categories w) →
   NoDup (Category.value <$> categories w) →
   NoDup (Category.value <$> categories (serve isEmail toLowerCase q w).2)) ∧
  (NoDup (Branch._id <$> branches w) →
   NoDup ((λ b, toLowerCase (Branch.name b)) <$> branches w) →
   NoDup ((λ b, toLowerCase (Branch.name b))
          <$> branches (serve isEmail toLowerCase q w).2)).
Proof.
  destruct q as [| |id|b|id b|id|id| | |id|b|id b|id|id]; run_routes;
    repeat case_match; simplify_eq; simpl; (split; [try done|try done]);
    intros Hids Hnd;
    try (by apply NoDup_fmap_delete);
    try (by erewrite fmap_insert_same).
  - (* POST /categories *)
    apply NoDup_fmap_snoc; [done|]. intros y Hy Heq.
    match goal with Hs : some _ _ = false |- _ =>
      rewrite some_false_iff in Hs; specialize (Hs y Hy);
      apply bool_decide_eq_false in Hs end.
    match goal with Hok : bool_decide _ = true |- _ =>
      apply bool_decide_eq_true_1 in Hok;
      destruct (category_valid_fields Create b Hok) as (_ & _ & _ & Hreq) end.
    destruct (Hreq eq_refl) as [_ [v Hv]].
    unfold new_category in Heq. simpl in Heq. rewrite Hv in *. simpl in *.
    congruence.
  - (* PUT /categories/:id *)
    match goal with
    | Hi : findIndex _ _ = Some ?n, Hl : _ !! ?n = Some ?t |- _ =>
        rename Hi into Hfound; rename Hl into Hold; rename n into i;
        rename t into old
    end.
    destruct (findIndex_Some _ _ _ Hfound) as (x & Hx & Hid & _).
    assert (x = old) as -> by congruence.
    unfold category_with_id in Hid. apply bool_decide_eq_true in Hid.
    match goal with Hok : bool_decide _ = true |- _ =>
      apply bool_decide_eq_true_1 in Hok;
      destruct (category_valid_fields Update b Hok) as (_ & Hslug & _) end.
    destruct (b !! "value") as [v|] eqn:Hv.
    + pose proof (truthy_Some v (slug_nonempty v (Hslug v eq_refl))) as Htr.
      match goal with Hs : truthy _ && some _ _ = false |- _ =>
        rewrite Htr, andb_true_l, some_false_iff in Hs; rename Hs into Hno end.
      apply NoDup_fmap_insert; [done|]. intros j y Hj Hy.
      assert (Hvalue : Category.value
                (Category.set_updatedAt (clock w (reads w))
                   (merge_category old (b !! "name") (Some v)
                      (b !! "description"))) = v).
      { unfold merge_category. rewrite Htr.
        by destruct (truthy (b !! "name")), (b !! "description"). }
      rewrite Hvalue. intros Heq.
      specialize (Hno y (proj2 (list_elem_of_lookup _ _) (ex_intro _ j Hy))).
      apply andb_false_iff in Hno as [Hno|Hno].
      * apply bool_decide_eq_false in Hno. congruence.
      * apply negb_false_iff, bool_decide_eq_true in Hno.
        apply (NoDup_fmap_other Category._id _ i j old y Hids Hold Hy Hj).
        congruence.
    + erewrite fmap_insert_same; [done|done|].
      unfold merge_category. simpl.
      by destruct (truthy (b !! "name")), (b !! "description").
  - (* POST /branches *)
    apply NoDup_fmap_snoc; [done|]. intros y Hy Heq.
    match goal with Hs : some _ _ = false |- _ =>
      rewrite some_false_iff in Hs; specialize (Hs y Hy);
      apply bool_decide_eq_false in Hs end.
    by unfold new_branch in Heq.
  - (* PUT /branches/:id *)
    match goal with
    | Hi : findIndex _ _ = Some ?n, Hl : _ !! ?n = Some ?t |- _ =>
        rename Hi into Hfound; rename Hl into Hold; rename n into i;
        rename t into old
    end.
    destruct (findIndex_Some _ _ _ Hfound) as (x & Hx & Hid & _).
    assert (x = old) as -> by congruence.
    unfold branch_with_id in Hid. apply bool_decide_eq_true in Hid.
    match goal with Hok : bool_decide _ = true |- _ =>
      apply bool_decide_eq_true_1 in Hok;
      destruct (branch_valid_fields isEmail Update b Hok) as (Hname & _) end.
    destruct (b !! "name") as [n|] eqn:Hn.
    + destruct (Hname n eq_refl) as [Hne _].
      pose proof (truthy_Some n Hne) as Htr.
      match goal with Hs : truthy _ && some _ _ = false |- _ =>
        rewrite Htr, andb_true_l, some_false_iff in Hs; rename Hs into Hno end.
      apply NoDup_fmap_insert; [done|]. intros j y Hj Hy.
      assert (Hvalue : Branch.name
                (Branch.set_updatedAt (clock w (reads w))
                   (merge_branch old (Some n) (b !! "description")
                      (b !! "address") (b !! "phone") (b !! "email"))) = n).
      { unfold merge_branch. rewrite Htr.
        by destruct (b !! "description"), (b !! "address"), (b !! "phone"),
          (b !! "email"). }
      rewrite Hvalue. intros Heq.
      specialize (Hno y (proj2 (list_elem_of_lookup _ _) (ex_intro _ j Hy))).
      apply andb_false_iff in Hno as [Hno|Hno].
      * apply bool_decide_eq_false in Hno. done.
      * apply negb_false_iff, bool_decide_eq_true in Hno.
        apply (NoDup_fmap_other Branch._id _ i j old y Hids Hold Hy Hj).
        congruence.
    + erewrite fmap_insert_same; [done|done|].
      unfold merge_branch. simpl.
      by destruct (b !! "description"), (b !! "address"), (b !! "phone"),
        (b !! "email").
Qed.

(** How one request changes the list of ids of each registry: a create
    answered 201 appends the decimal form of its first reading, any other
    request keeps the list or deletes one entry. *)
Lemma serve_ids isEmail toLowerCase (q : request) (w : world) :
  let w' := (serve isEmail toLowerCase q w).2 in
  let r := (serve isEmail toLowerCase q w).1 in
  match created_category_id r with
  | Some _ => Category._id <$> categories w'
              = ((Category._id <$> categories w)
                 ++ [Number_toString (clock w (reads w))])%list
  | None => Category._id <$> categories w' = Category._id <$> categories w
            ∨ ∃ i, Category._id <$> categories w'
                   = delete i (Category._id <$> categories w)
  end ∧
  match created_branch_id r with
  | Some _ => Branch._id <$> branches w'
              = ((Branch._id <$> branches w)
                 ++ [Number_toString (clock w (reads w))])%list
  | None => Branch._id <$> branches w' = Branch._id <$> branches w
            ∨ ∃ i, Branch._id <$> branches w'
                   = delete i (Branch._id <$> branches w)
  end.
Proof.
  intros w' r. subst w' r.
  destruct q as [| |id|b|id b|id|id| | |id|b|id b|id|id]; run_routes;
    repeat case_match; simplify_eq; simpl;
    (split; [try (by left)|try (by left)]);
    lazymatch goal with
    | |- _ <$> (_ ++ [_])%list = _ => by rewrite fmap_app
    | |- _ <$> delete ?n ?l = _ ∨ _ =>
        right; exists n; by rewrite list_fmap_delete
    | Hl : ?l !! ?n = Some ?t |- _ <$> <[?n := _]> ?l = _ ∨ _ =>
        left; apply (fmap_insert_same _ _ _ t); [done|];
        unfold merge_category, merge_branch, toggled_category,
          toggled_branch;
        repeat case_match; done
    end.
Qed.

Lemma ids_among_snoc (ns : list N) (ids : list string) (t : N) :
  t ∉ ns → ids_among ns ids →
  ids_among (ns ++ [t])%list (ids ++ [Number_toString t])%list.
Proof.
  intros Ht [Hnd Hall]. split.
  - apply NoDup_app. split; [done|]. split; [|apply NoDup_singleton].
    intros id Hid Hin. apply list_elem_of_singleton in Hin. subst id.
    destruct (Hall _ Hid) as (n & Hn & Heq).
    apply Number_toString_inj in Heq. by subst n.
  - intros id Hid. apply elem_of_app in Hid as [Hid|Hid].
    + destruct (Hall _ Hid) as (n & Hn & ->). exists n. split; [|done].
      apply elem_of_app. by left.
    + apply list_elem_of_singleton in Hid. subst id. exists t.
      split; [|done]. apply elem_of_app. right. left.
Qed.

Lemma ids_among_kept (ns : list N) (ids ids' : list string) :
  (ids' = ids ∨ ∃ i, ids' = delete i ids) →
  ids_among ns ids → ids_among ns ids'.
Proof.
  intros [->|[i ->]] [Hnd Hall]; [done|]. split.
  - eapply sublist_NoDup; [exact Hnd|apply sublist_delete].
  - intros id Hid. apply Hall. by eapply list_elem_of_delete_inv.
Qed.

Lemma serve_all_unique_categories isEmail toLowerCase (qs : list request)
    (w : world) (ns : list N) :
  NoDup (ns ++ category_creation_readings isEmail toLowerCase qs w) →
  ids_among ns (Category._id <$> categories w) →
  NoDup (Category.value <$> categories w) →
  NoDup (Category._id <$> categories (serve_all isEmail toLowerCase qs w).2) ∧
  NoDup (Category.value
         <$> categories (serve_all isEmail toLowerCase qs w).2).
Proof.
  revert w ns. induction qs as [|q qs IH]; intros w ns Hnd Hids Hval; simpl.
  { by destruct Hids. }
  pose proof (serve_ids isEmail toLowerCase q w) as [Hshape _].
  pose proof (serve_keeps_unique isEmail toLowerCase q w) as [Huniq _].
  simpl in Hnd, Hshape.
  destruct (serve isEmail toLowerCase q w) as [r w1]. simpl in *.
  specialize (Huniq (proj1 Hids) Hval).
  destruct (serve_all isEmail toLowerCase qs w1) as [rs w2] eqn:Hrest.
  simpl. specialize (IH w1). rewrite Hrest in IH. simpl in IH.
  destruct (created_category_id r).
  - apply (IH (ns ++ [clock w (reads w)])%list); [|rewrite Hshape|done].
    + by rewrite <- app_assoc.
    + apply ids_among_snoc; [|done].
      apply NoDup_app in Hnd as (_ & Hnotin & _). intros Hin.
      apply (Hnotin _ Hin). left.
  - apply (IH ns); [done| |done]. by eapply ids_among_kept.
Qed.

Lemma serve_all_unique_branches isEmail toLowerCase (qs : list request)
    (w : world) (ns : list N) :
  NoDup (ns ++ branch_creation_readings isEmail toLowerCase qs w) →
  ids_among ns (Branch._id <$> branches w) →
  NoDup ((λ b, toLowerCase (Branch.name b)) <$> branches w) →
  NoDup (Branch._id <$> branches (serve_all isEmail toLowerCase qs w).2) ∧
  NoDup ((λ b, toLowerCase (Branch.name b))
         <$> branches (serve_all isEmail toLowerCase qs w).2).
Proof.
  revert w ns. induction qs as [|q qs IH]; intros w ns Hnd Hids Hval; simpl.
  { by destruct Hids. }
  pose proof (serve_ids isEmail toLowerCase q w) as [_ Hshape].
  pose proof (serve_keeps_unique isEmail toLowerCase q w) as [_ Huniq].
  simpl in Hnd, Hshape.
  destruct (serve isEmail toLowerCase q w) as [r w1]. simpl in *.
  specialize (Huniq (proj1 Hids) Hval).
  destruct (serve_all isEmail toLowerCase qs w1) as [rs w2] eqn:Hrest.
  simpl. specialize (IH w1). rewrite Hrest in IH. simpl in IH.
  destruct (created_branch_id r).
  - apply (IH (ns ++ [clock w (reads w)])%list); [|rewrite Hshape|done].
    + by rewrite <- app_assoc.
    + apply ids_among_snoc; [|done].
      apply NoDup_app in Hnd as (_ & Hnotin & _). intros Hin.
      apply (Hnotin _ Hin). left.
  - apply (IH ns); [done| |done]. by eapply ids_among_kept.
Qed.

Lemma seed_ids_among (ns : list N) (ids : list string) :
  NoDup ns → ids = Number_toString <$> ns → ids_among ns ids.
Proof.
  intros Hnd ->. split.
  - by apply (NoDup_fmap_2 Number_toString).
  - intros id Hid. apply list_elem_of_fmap in Hid as (n & -> & Hn).
    by exists n.
Qed.

(** X14. Uniqueness is kept as long as creates do not share a clock reading.
    Over any run from the freshly loaded module in which the readings the
    category creates took as ids are pairwise distinct and differ from 1 to
    5, the category ids and the category values of the final state are
    pairwise distinct. When the readings the branch creates took are
    pairwise distinct and differ from 1 and 2, the branch ids are pairwise
    distinct and, [toLowerCase] being [ascii_lower] on ASCII text, so are
    the branch names even when letter case is ignored. No other assumption
    is made on the clock. *)
Theorem distinct_readings_keep_unique isEmail toLowerCase (clk : nat → N)
    (qs : list request) :
  let w := (serve_all isEmail toLowerCase qs (boot clk)).2 in
  (NoDup ([1; 2; 3; 4; 5]%N
          ++ category_creation_readings isEmail toLowerCase qs (boot clk)) →
   NoDup (Category._id <$> categories w) ∧
   NoDup (Category.value <$> categories w)) ∧
  (NoDup ([1; 2]%N
          ++ branch_creation_readings isEmail toLowerCase qs (boot clk)) →
   lowers_ascii toLowerCase →
   NoDup (Branch._id <$> branches w) ∧
   (∀ i j a b, branches w !! i = Some a → branches w !! j = Some b →
               equal_ignoring_case toLowerCase (Branch.name a) (Branch.name b)
               → i = j)).
Proof.
  intros w. split.
  - intros Hnd.
    apply (serve_all_unique_categories isEmail toLowerCase qs (boot clk)
             [1; 2; 3; 4; 5]%N Hnd).
    + apply seed_ids_among; [|done].
      apply (bool_decide_unpack _). by vm_compute.
    + apply (bool_decide_unpack _). by vm_compute.
  - intros Hnd Hascii.
    destruct (serve_all_unique_branches isEmail toLowerCase qs (boot clk)
                [1; 2]%N Hnd) as [Hids Hnames].
    + apply seed_ids_among; [|done].
      apply (bool_decide_unpack _). by vm_compute.
    + simpl. rewrite !Hascii by done.
      apply (bool_decide_unpack _). by vm_compute.
    + fold w in Hids, Hnames. split; [done|].
      intros i j a b Ha Hb Heq.
      apply equal_ignoring_case_toLowerCase in Heq.
      eapply (proj1 (NoDup_alt _) Hnames i j).
      * by rewrite list_lookup_fmap, Ha.
      * rewrite list_lookup_fmap, Hb. simpl. by rewrite Heq.
Qed.

(** ** Values freed by a delete *)

Lemma NoDup_delete_not_elem {B} (l : list B) (i : nat) (x : B) :
  NoDup l → l !! i = Some x → x ∉ delete i l.
Proof.
  revert i. induction l as [|a l IH]; intros [|i] Hnd Hx; simpl in *;
    try done; apply NoDup_cons in Hnd as [Hnotin Hnd].
  - by injection Hx as ->.
  - intros Hin. apply elem_of_cons in Hin as [->|Hin].
    + apply Hnotin. by eapply list_elem_of_lookup_2.
    + by apply (IH i).
Qed.

(** X16. A delete frees the value or name for reuse, as nothing of the record
    is kept: when category values are pairwise distinct, deleting the
    record found under an id and then creating a category with that
    record's value is answered 201 if the request passes validation; the
    same holds for branch names that are pairwise distinct up to letter
    case. *)
Theorem delete_frees_value isEmail toLowerCase (id : string) (w : world) :
  (∀ (c : Category.t) (b : body),
     NoDup (Category.value <$> categories w) →
     find (category_with_id id) (categories w) = Some c →
     validationResult post_categories_chains b = [] →
     b !! "value" = Some (Category.value c) →
     let w1 := (run_handler (delete_category id) w).2 in
     ∃ m c',
       (run_handler (post_categories b) w1).1 = (201, MessageWith m c') ∧
       Category.value c' = Category.value c) ∧
  (∀ (c : Branch.t) (b : body) (n : string),
     NoDup ((λ b, toLowerCase (Branch.name b)) <$> branches w) →
     find (branch_with_id id) (branches w) = Some c →
     validationResult (post_branches_chains isEmail) b = [] →
     b !! "name" = Some n →
     equal_ignoring_case toLowerCase (Branch.name c) n →
     let w1 := (run_handler (delete_branch id) w).2 in
     ∃ m c',
       (run_handler (post_branches isEmail toLowerCase b) w1).1
       = (201, MessageWith m c') ∧
       Branch.name c' = n).
Proof.
  split.
  - intros c b Hnd Hfind Hok Hv w1.
    destruct (find_Some_findIndex _ _ _ Hfind) as (i & Hi & Hc).
    subst w1. rewrite delete_category_run, Hi. simpl.
    rewrite post_categories_run. cbv zeta. simpl categories.
    rewrite Hok, bool_decide_eq_true_2 by done.
    assert (Hs : some (λ cat, bool_decide (Some (Category.value cat)
                                           = b !! "value"))
                   (delete i (categories w)) = false).
    { apply some_false_iff. intros x Hx. apply bool_decide_eq_false.
      rewrite Hv. intros Heq. injection Heq as Heq.
      apply (NoDup_delete_not_elem (Category.value <$> categories w) i
               (Category.value c)); [done| |].
      - by rewrite list_lookup_fmap, Hc.
      - rewrite <- list_fmap_delete, <- Heq. by apply list_elem_of_fmap_2. }
    rewrite Hs. eexists _, _. split; [reflexivity|].
    unfold new_category. simpl. by rewrite Hv.
  - intros c b n Hnd Hfind Hok Hn Heq w1.
    destruct (find_Some_findIndex _ _ _ Hfind) as (i & Hi & Hc).
    apply equal_ignoring_case_toLowerCase in Heq.
    subst w1. rewrite delete_branch_run, Hi. simpl.
    rewrite post_branches_run. cbv zeta. simpl branches.
    rewrite Hok, bool_decide_eq_true_2 by done.
    assert (Hs : some (λ branch, bool_decide (toLowerCase (Branch.name branch)
                                    = toLowerCase (text (b !! "name"))))
                   (delete i (branches w)) = false).
    { apply some_false_iff. intros x Hx. apply bool_decide_eq_false.
      rewrite Hn. simpl text. intros Hxn.
      apply (NoDup_delete_not_elem
               ((λ b, toLowerCase (Branch.name b)) <$> branches w) i
               (toLowerCase (Branch.name c))); [done| |].
      - by rewrite list_lookup_fmap, Hc.
      - rewrite <- list_fmap_delete, Heq, <- Hxn.
        by apply (list_elem_of_fmap_2 (λ b, toLowerCase (Branch.name b))). }
    rewrite Hs. eexists _, _. split; [reflexivity|].
    unfold new_branch. simpl. by rewrite Hn.
Qed.

(** ** The further properties at work on the seeded module *)

(** Witness for X1: an empty name together with an uppercase value. *)
Lemma validation_errors_name_violations_upper :
  let q := POST_categories (json_body [("name", ""); ("value", "UPPER")]) in
  ∃ f, violation has_at_sign q f.
Proof.
  intros q.
  apply (validation_errors_name_violations has_at_sign latin1_toLowerCase q
           (boot advancing_clock)
           [VError "name" "Category name is required" (Some "");
            VError "value"
              "Category value must contain only lowercase letters, numbers, and hyphens"
              (Some "UPPER")]).
  split; [discriminate|]. left. reflexivity.
Defined.

(** Witness for X2: creating the category "Tea" on the seeded module. *)
Lemma category_create_outcome_tea :
  let b := json_body [("name", "Tea"); ("value", "tea")] in
  (run_handler (post_categories b) (boot advancing_clock)).1
  = (201, MessageWith "Category created successfully"
            (Category.mk "1700000000014" "Tea" "tea" "Tea" None true
               1700000000015 1700000000016)).
Proof.
  intros b.
  destruct (category_create_outcome b (boot advancing_clock) eq_refl)
    as (n & v & Hn & Hv & _ & Hfresh).
  vm_compute in Hn, Hv. injection Hn as <-. injection Hv as <-.
  rewrite Hfresh; [reflexivity|].
  intros old Hold. set_unfold in Hold.
  destruct Hold as [->|[->|[->|[->|[->|[]]]]]]; discriminate.
Defined.

(** Witness for X3: creating the branch "Harbour" on the seeded module. *)
Lemma branch_create_outcome_harbour :
  let b := json_body [("name", "Harbour"); ("phone", "")] in
  (run_handler (post_branches has_at_sign latin1_toLowerCase b) (boot advancing_clock)).1
  = (201, MessageWith "Branch created successfully"
            (Branch.mk "1700000000014" "Harbour" None None None None true
               1700000000015 1700000000016)).
Proof.
  intros b.
  destruct (branch_create_outcome has_at_sign latin1_toLowerCase b (boot advancing_clock) eq_refl)
    as (n & Hn & _ & Hfresh).
  vm_compute in Hn. injection Hn as <-.
  rewrite Hfresh; [reflexivity|].
  intros old Hold Heq. apply equal_ignoring_case_toLowerCase in Heq.
  set_unfold in Hold. destruct Hold as [->|[->|[]]]; discriminate.
Defined.

(** Witness for X4: the category "Tea" sent twice. *)
Lemma create_twice_conflicts_tea :
  let b := json_body [("name", "Tea"); ("value", "tea")] in
  let w1 := (run_handler (post_categories b) (boot advancing_clock)).2 in
  run_handler (post_categories b) w1
  = ((400, Message "Category value already exists"), w1).
Proof.
  intros b w1.
  apply (proj1 (create_twice_conflicts has_at_sign latin1_toLowerCase (boot advancing_clock))
           b _ _ eq_refl).
Defined.

(** Witness for X5: the seeded category "1" is sent its own value. *)
Lemma update_conflict_excludes_self_frozen :
  let b := json_body [("value", "frozen-products")] in
  ∃ m u, (run_handler (put_category "1" b) (boot advancing_clock)).1
         = (200, MessageWith m u) ∧
         Category.value u = "frozen-products".
Proof.
  intros b.
  destruct (proj1 (update_conflict_excludes_self has_at_sign latin1_toLowerCase "1" b
                     (boot advancing_clock))
              "frozen-products" eq_refl) as [_ Hok].
  - by eexists.
  - reflexivity.
  - apply Hok. discriminate.
Defined.


(** Witness for X7: toggling an id that no category carries. *)
Lemma absent_id_not_found_nine :
  run_handler (patch_category_toggle_status "9") (boot advancing_clock)
  = ((404, Message "Category not found"), boot advancing_clock).
Proof.
  destruct (proj1 (absent_id_not_found has_at_sign latin1_toLowerCase "9" (boot advancing_clock))
              eq_refl) as (_ & Htoggle & _).
  exact Htoggle.
Defined.

(** Witness for X8: deleting a category leaves the branches alone. *)
Lemma registries_independent_delete :
  branches (serve has_at_sign latin1_toLowerCase (DELETE_category "1") (boot advancing_clock)).2
  = branches (boot advancing_clock).
Proof.
  apply (proj1 (registries_independent has_at_sign latin1_toLowerCase (DELETE_category "1")
                  (boot advancing_clock))).
  exact I.
Defined.

(** Witness for X9: after the module is loaded, creating the category "Tea"
    is answered 201 and appends one pair; deleting the seeded category "1"
    is answered 200 and removes one pair, leaving four records. *)
Lemma identities_fixed_tea_and_delete :
  let w := boot advancing_clock in
  let tea := POST_categories (json_body [("name", "Tea"); ("value", "tea")]) in
  let del := DELETE_category "1" in
  (∃ x, category_identity <$> categories (serve has_at_sign latin1_toLowerCase tea w).2
        = ((category_identity <$> categories w) ++ [x])%list ∧
        length (categories (serve has_at_sign latin1_toLowerCase tea w).2) = 6%nat) ∧
  (∃ i, (i < 5)%nat ∧
        category_identity <$> categories (serve has_at_sign latin1_toLowerCase del w).2
        = delete i (category_identity <$> categories w) ∧
        length (categories (serve has_at_sign latin1_toLowerCase del w).2) = 4%nat).
Proof.
  intros w tea del. split.
  - destruct (proj1 (proj1 (identities_fixed has_at_sign latin1_toLowerCase tea w))
                (conj I eq_refl)) as (x & Hx & Hlen).
    exists x. split; [exact Hx|exact Hlen].
  - destruct (proj1 (proj2 (proj1 (identities_fixed has_at_sign latin1_toLowerCase
                                     del w)))
                (conj I eq_refl)) as (i & Hi & Hdel & Hlen).
    exists i. split; [exact Hi|]. split; [exact Hdel|].
    exact (f_equal Nat.pred Hlen).
Defined.

(** Witness for X10: toggling the seeded, active category "1". *)
Lemma toggle_moves_active_total_frozen :
  let w := boot advancing_clock in
  let w' := (run_handler (patch_category_toggle_status "1") w).2 in
  ∃ items',
    (run_handler get_categories w').1 = (200, Listing items' 4).
Proof.
  intros w w'.
  destruct (proj1 (toggle_moves_active_total "1" w) _ eq_refl)
    as (items & items' & all' & H0 & H1 & _ & Hlen).
  subst w'. exists items'. rewrite H1. simpl in Hlen.
  vm_compute in H0. injection H0 as <-. simpl in Hlen.
  injection Hlen as ->. reflexivity.
Defined.

(** Witness for X11: the created category "Tea" is fetched by its id. *)
Lemma created_record_is_listed_tea :
  let b := json_body [("name", "Tea"); ("value", "tea")] in
  let w' := (run_handler (post_categories b) (boot advancing_clock)).2 in
  (run_handler (get_category "1700000000014") w').1
  = (200, Single (Category.mk "1700000000014" "Tea" "tea" "Tea" None true
                    1700000000015 1700000000016)).
Proof.
  intros b w'.
  destruct (proj1 (created_record_is_listed has_at_sign latin1_toLowerCase (boot advancing_clock))
              b _ _ eq_refl) as (_ & _ & Hget & _).
  apply Hget. reflexivity.
Defined.

(** Witness for X12: the state after creating the category "Tea". *)
Lemma stored_records_well_formed_tea :
  let qs := [POST_categories (json_body [("name", "Tea"); ("value", "tea")])] in
  let w := (serve_all has_at_sign latin1_toLowerCase qs (boot advancing_clock)).2 in
  Forall well_formed_category (categories w) ∧
  Forall (well_formed_branch has_at_sign) (branches w).
Proof.
  intros qs w.
  destruct (stored_records_well_formed has_at_sign latin1_toLowerCase w) as [Hc Hb].
  - by exists advancing_clock, qs.
  - split; [exact Hc|]. apply Hb; reflexivity.
Defined.


(** Witness for X14: a create in each registry and a toggle, all in the
    same millisecond. *)
Lemma distinct_readings_keep_unique_tea :
  let qs := [POST_categories (json_body [("name", "Tea"); ("value", "tea")]);
             PATCH_category_toggle_status "1";
             POST_branches (json_body [("name", "Harbour")])] in
  let w := (serve_all has_at_sign latin1_toLowerCase qs (boot burst_clock)).2 in
  (NoDup (Category._id <$> categories w) ∧
   NoDup (Category.value <$> categories w)) ∧
  NoDup (Branch._id <$> branches w).
Proof.
  intros qs w. split.
  - apply (proj1 (distinct_readings_keep_unique has_at_sign
                    latin1_toLowerCase burst_clock qs)).
    apply (bool_decide_unpack _). by vm_compute.
  - apply (proj2 (distinct_readings_keep_unique has_at_sign
                    latin1_toLowerCase burst_clock qs)).
    + apply (bool_decide_unpack _). by vm_compute.
    + apply latin1_lowers_ascii.
Defined.

(** Under the Latin-1 case map a branch "CAFÉ" conflicts with a stored
    "café", as the two names have the same lower-case image. *)
Lemma cafe_conflicts :
  let cafe := "caf" +:+ String (ascii_of_N 233) "" in
  let CAFE := "CAF" +:+ String (ascii_of_N 201) "" in
  status_of
  <$> (serve_all has_at_sign latin1_toLowerCase
         [POST_branches (json_body [("name", cafe)]);
          POST_branches (json_body [("name", CAFE)])]
         (boot burst_clock)).1
  = [201; 400].
Proof. by vm_compute. Qed.

(** Witness for X16: the value of the deleted seed "1" is created again. *)
Lemma delete_frees_value_frozen :
  let b := json_body [("name", "Ice"); ("value", "frozen-products")] in
  let w1 := (run_handler (delete_category "1") (boot advancing_clock)).2 in
  ∃ m c', (run_handler (post_categories b) w1).1 = (201, MessageWith m c') ∧
          Category.value c' = "frozen-products".
Proof.
  intros b w1.
  apply (proj1 (delete_frees_value has_at_sign latin1_toLowerCase "1" (boot advancing_clock))
           (Category.mk "1" "Frozen Products" "frozen-products"
              "Frozen Products"
              (Some "Products that need to be kept frozen") true
              1700000000000 1700000000001) b).
  - apply (bool_decide_unpack _). by vm_compute.
  - reflexivity.
  - reflexivity.
  - reflexivity.
Defined.
